(** * await-to-tuple: the [ok, err, data] result convention

    A shallow embedding of [src/error.ts] (SafeError), [src/core.ts]
    (to, sync, cb) and [src/utils.ts] (or, map, pipe, format, parse),
    followed by the properties the specification states about them. *)

From Stdlib Require Import List String Ascii ZArith Bool Arith Lia.
From Stdlib Require Import DecimalString DecimalPos DecimalZ.
Import ListNotations.
Open Scope string_scope.

Set Implicit Arguments.

(** ** JavaScript values

    The library never mutates an object, so a reference is modelled by its
    allocation identity [id] together with the object it points to.  Two
    values are the same reference exactly when they are equal, and a freshly
    allocated object gets the identity held by the allocation counter.

    Numbers are the integers and NaN.  Objects are plain data: an instance
    of SafeError, any other instance of Error, an array, or another object
    given by its properties and by what String makes of it (the outcome of
    its toString method, which user code may define and which may throw).
    The message of an Error is a plain string: an Error whose message is
    an accessor that throws, and a proxy whose traps throw, are not
    represented. *)

Inductive number :=
| Int (z : Z)
| NaN.

Inductive value :=
| VUndef
| VNull
| VBool (b : bool)
| VNum (n : number)
| VStr (s : string)
| VObj (id : nat) (o : obj)
with obj :=
| OSafeError (message : string) (cause code : value)  (* class SafeError extends Error *)
| OError (name message : string)   (* an Error, or a subclass other than SafeError *)
| OArray (elems : list value)
| OObject (props : list (string * value)) (toStr : render)  (* any other object *)
with render :=
| Renders (s : string)             (* String(o) evaluates to s *)
| Raises (v : value).              (* String(o) throws v *)

(** Completion of a call: it returns, or it throws a value. *)
Inductive completion (A : Type) :=
| Normal (a : A)
| Throw (v : value).
Arguments Normal {A} a.
Arguments Throw {A} v.

(** A promise, given by how it settles.  A promise that never settles is
    not represented: what follows speaks of promises that do. *)
Inductive promise :=
| Fulfilled (v : value)
| Rejected (r : value).

Section Model.

(** The part of the program state the library does not look at. *)
Context {W : Type}.

Record State := mkState { next_id : nat; world : W }.

(** Computations: state passing, with exceptions. *)
Definition M (A : Type) : Type := State -> State * completion A.

Definition ret {A} (a : A) : M A := fun s => (s, Normal a).

Definition throw {A} (v : value) : M A := fun s => (s, Throw v).

Definition bind {A B} (m : M A) (k : A -> M B) : M B :=
  fun s => match m s with
           | (s', Normal a) => k a s'
           | (s', Throw v) => (s', Throw v)
           end.

(** try { body } catch (err) { handler err } *)
Definition try_catch {A} (body : M A) (handler : value -> M A) : M A :=
  fun s => match body s with
           | (s', Normal a) => (s', Normal a)
           | (s', Throw err) => handler err s'
           end.

(** A pure host operation that may throw. *)
Definition lift {A} (c : completion A) : M A := fun s => (s, c).

(** Allocation of a new object. *)
Definition alloc (o : obj) : M value :=
  fun s => (mkState (S (next_id s)) (world s), Normal (VObj (next_id s) o)).

End Model.

Arguments State W : clear implicits.
Arguments M W A : clear implicits.

Declare Scope js_scope.
Delimit Scope js_scope with js.
Notation "x <- m ;; k" := (bind m (fun x => k))
  (at level 61, m at next level, right associativity) : js_scope.
Open Scope js_scope.

(** ** Host operations *)

(** ToBoolean: the falsy values are undefined, null, false, 0, NaN and the
    empty string; every object is truthy. *)
Definition truthy (v : value) : bool :=
  match v with
  | VUndef | VNull => false
  | VBool b => b
  | VNum (Int z) => negb (Z.eqb z 0)
  | VNum NaN => false
  | VStr s => negb (String.eqb s "")
  | VObj _ _ => true
  end.

(** [v instanceof SafeError] and [v instanceof Error]. *)
Definition instanceof_SafeError (v : value) : bool :=
  match v with
  | VObj _ (OSafeError _ _ _) => true
  | _ => false
  end.

Definition instanceof_Error (v : value) : bool :=
  match v with
  | VObj _ (OSafeError _ _ _) | VObj _ (OError _ _) => true
  | _ => false
  end.

(** Error.prototype.toString *)
Definition Error_toString (name message : string) : string :=
  if String.eqb name "" then message
  else if String.eqb message "" then name
  else name ++ ": " ++ message.

(** String(v).  Integers print all their decimal digits (JavaScript does
    so below 1e21); an array joins the renderings of its elements with
    commas, undefined and null giving the empty string. *)
Fixpoint String_ (v : value) : completion string :=
  match v with
  | VUndef => Normal "undefined"
  | VNull => Normal "null"
  | VBool true => Normal "true"
  | VBool false => Normal "false"
  | VNum (Int z) => Normal (NilZero.string_of_int (Z.to_int z))
  | VNum NaN => Normal "NaN"
  | VStr s => Normal s
  | VObj _ (OSafeError m _ _) => Normal (Error_toString "SafeError" m)
  | VObj _ (OError n m) => Normal (Error_toString n m)
  | VObj _ (OArray elems) =>
      let elem x :=
        match x with
        | VUndef | VNull => Normal ""
        | _ => String_ x
        end in
      (fix join (l : list value) : completion string :=
         match l with
         | [] => Normal ""
         | [x] => elem x
         | x :: rest =>
             match elem x with
             | Normal a =>
                 match join rest with
                 | Normal b => Normal (a ++ "," ++ b)
                 | Throw e => Throw e
                 end
             | Throw e => Throw e
             end
         end) elems
  | VObj _ (OObject _ (Renders s)) => Normal s
  | VObj _ (OObject _ (Raises e)) => Throw e
  end.

(** Property lookup in an object literal; a missing key reads undefined. *)
Fixpoint lookup (key : string) (props : list (string * value)) : value :=
  match props with
  | [] => VUndef
  | (k, v) :: rest => if String.eqb k key then v else lookup key rest
  end.

(** str.startsWith(prefix) and str.slice(n) *)
Definition startsWith (str pre : string) : bool := String.prefix pre str.

Fixpoint slice (str : string) (n : nat) {struct n} : string :=
  match n, str with
  | O, _ => str
  | S n', String _ rest => slice rest n'
  | S _, EmptyString => EmptyString
  end.

Section Library.

Context {W : Type}.

(** ** src/error.ts *)

Record SafeErrorOptions := mkOptions { opt_cause : value; opt_code : value }.

(** new SafeError(message, options): an absent option reads undefined. *)
Definition new_SafeError (message : string) (options : option SafeErrorOptions) : M W value :=
  alloc (OSafeError message
           (match options with Some o => opt_cause o | None => VUndef end)
           (match options with Some o => opt_code o | None => VUndef end)).

(** new Error(message), for the errors the library and the host raise. *)
Definition new_Error (name message : string) : M W value :=
  alloc (OError name message).

(** SafeError.from(value).  Only String(value) is inside the try: in the
    source the instanceof tests and the read of value.message are outside
    it, and on the plain data modelled here they do not throw. *)
Definition SafeError_from (v : value) : M W value :=
  if instanceof_SafeError v then ret v
  else
    match v with
    | VObj _ (OError _ m) =>            (* value instanceof Error *)
        new_SafeError m (Some (mkOptions v VUndef))
    | VStr s =>                          (* typeof value === 'string' *)
        new_SafeError s None
    | _ =>
        message <- try_catch (lift (String_ v)) (fun _ => ret "Unknown error") ;;
        new_SafeError message (Some (mkOptions v VUndef))
    end.

(** ** src/types.ts

    A SafeResult is the array [true, null, data] or [false, error, null]. *)
Definition tuple (ok err data : value) : M W value :=
  alloc (OArray [ok; err; data]).

(** ErrorTransformer<E> = (err: unknown) => E *)
Definition ErrorTransformer : Type := value -> M W value.

(** errorTransformer ? errorTransformer(err) : SafeError.from(err) *)
Definition normalize (errorTransformer : option ErrorTransformer) (err : value) : M W value :=
  match errorTransformer with
  | Some f => f err
  | None => SafeError_from err
  end.

(** ** src/core.ts *)

(** An async function settles the promise it returns with the completion
    of its body; [await] gives the value of a fulfilled promise and throws
    the reason of a rejected one. *)
Definition async (body : M W value) : State W -> State W * promise :=
  fun s => match body s with
           | (s', Normal v) => (s', Fulfilled v)
           | (s', Throw r) => (s', Rejected r)
           end.

Definition await (p : promise) : M W value :=
  match p with
  | Fulfilled v => ret v
  | Rejected r => throw r
  end.

Definition to (p : promise) (errorTransformer : option ErrorTransformer)
  : State W -> State W * promise :=
  async
    (try_catch
       (data <- await p ;;
        tuple (VBool true) VNull data)
       (fun err =>
          error <- normalize errorTransformer err ;;
          tuple (VBool false) error VNull)).

Definition sync (fn : M W value) (errorTransformer : option ErrorTransformer) : M W value :=
  try_catch
    (result <- fn ;;
     tuple (VBool true) VNull result)
    (fun err =>
       error <- normalize errorTransformer err ;;
       tuple (VBool false) error VNull).

(** *** cb

    The function handed to [cb] is user code that talks to the callback it
    receives.  Its synchronous part is a script: it returns, throws, acts on
    the state (and goes on according to the state it found), or invokes the
    callback and goes on according to how that invocation completed.
    Invocations made after it has returned (from a later turn of the event
    loop) are listed in [later]. *)
Inductive script :=
| Return
| Raise (r : value)
| Perform (act : State W -> State W) (k : State W -> script)
| Invoke (err result : value) (k : completion unit -> script).

Record adapter := mkAdapter { body : script; later : list (value * value) }.

(** The promise under construction: pending, or settled once and for all. *)
Definition slot : Type := option promise.

Definition resolve (p : slot) (v : value) : slot :=
  match p with
  | None => Some (Fulfilled v)
  | Some _ => p
  end.

Definition reject (p : slot) (r : value) : slot :=
  match p with
  | None => Some (Rejected r)
  | Some _ => p
  end.

(** The callback [(err, result) => { ... }] that cb hands to [fn]; when it
    throws, the promise is left as it was. *)
Definition cb_callback (errorTransformer : option ErrorTransformer)
    (err result : value) (p : slot) : M W slot :=
  if truthy err then
    error <- normalize errorTransformer err ;;
    t <- tuple (VBool false) error VNull ;;
    ret (resolve p t)
  else
    t <- tuple (VBool true) VNull result ;;
    ret (resolve p t).

(** fn(callback) *)
Fixpoint run_script (callback : value -> value -> slot -> M W slot)
    (fn : script) (p : slot) (s : State W) : State W * slot * completion unit :=
  match fn with
  | Return => (s, p, Normal tt)
  | Raise r => (s, p, Throw r)
  | Perform act k => run_script callback (k s) p (act s)
  | Invoke err result k =>
      match callback err result p s with
      | (s', Normal p') => run_script callback (k (Normal tt)) p' s'
      | (s', Throw x) => run_script callback (k (Throw x)) p s'
      end
  end.

(** What [fn] does before it first invokes the callback, returns or
    throws: the point it gets to, and the state it is in there. *)
Fixpoint advance (fn : script) (s : State W) : script * State W :=
  match fn with
  | Perform act k => advance (k s) (act s)
  | _ => (fn, s)
  end.

(** The executor [(resolve) => { try { fn(...) } catch (err) { ... } }] *)
Definition cb_executor (fn : script) (errorTransformer : option ErrorTransformer)
    (p : slot) (s : State W) : State W * slot * completion unit :=
  match run_script (cb_callback errorTransformer) fn p s with
  | (s1, p1, Normal _) => (s1, p1, Normal tt)
  | (s1, p1, Throw err) =>
      match (error <- normalize errorTransformer err ;;
             tuple (VBool false) error VNull) s1 with
      | (s2, Normal t) => (s2, resolve p1 t, Normal tt)
      | (s2, Throw x) => (s2, p1, Throw x)
      end
  end.

(** Callbacks invoked in later turns: what one of them throws goes to the
    host as an uncaught exception. *)
Fixpoint run_later (callback : value -> value -> slot -> M W slot)
    (calls : list (value * value)) (p : slot) (uncaught : list value) (s : State W)
  : State W * slot * list value :=
  match calls with
  | [] => (s, p, uncaught)
  | (err, result) :: rest =>
      match callback err result p s with
      | (s', Normal p') => run_later callback rest p' uncaught s'
      | (s', Throw x) => run_later callback rest p (uncaught ++ [x]) s'
      end
  end.

(** cb(fn, errorTransformer): [new Promise] runs the executor at once and
    rejects the promise when the executor throws.  The result is the state
    the promise ends in, with the exceptions left uncaught. *)
Definition cb (fn : adapter) (errorTransformer : option ErrorTransformer)
    (s : State W) : State W * slot * list value :=
  match cb_executor (body fn) errorTransformer None s with
  | (s1, p1, Normal _) =>
      run_later (cb_callback errorTransformer) (later fn) p1 [] s1
  | (s1, p1, Throw x) =>
      run_later (cb_callback errorTransformer) (later fn) (reject p1 x) [] s1
  end.

End Library.

(** ** src/utils.ts *)

Section Utils.

Context {W : Type}.

(** The host's JSON.stringify (a string, or undefined for what has no
    encoding) and JSON.parse. *)
Variable JSON_stringify : value -> M W value.
Variable JSON_parse : string -> M W value.

Definition char_at (s : string) (i : nat) : value :=
  match String.get i s with
  | Some c => VStr (String c EmptyString)
  | None => VUndef
  end.

(** const [ok, err, data] = result: an array gives its first three
    elements, undefined where it is too short; a string gives its first
    characters; anything else is not iterable. *)
Definition destructure (result : value) : M W (value * value * value) :=
  match result with
  | VObj _ (OArray elems) =>
      ret (nth 0 elems VUndef, nth 1 elems VUndef, nth 2 elems VUndef)
  | VStr s => ret (char_at s 0, char_at s 1, char_at s 2)
  | _ => e <- new_Error "TypeError" "result is not iterable" ;; throw e
  end.

(** err.message *)
Definition get_message (err : value) : M W value :=
  match err with
  | VUndef =>
      e <- new_Error "TypeError" "Cannot read properties of undefined (reading 'message')" ;;
      throw e
  | VNull =>
      e <- new_Error "TypeError" "Cannot read properties of null (reading 'message')" ;;
      throw e
  | VObj _ (OSafeError m _ _) => ret (VStr m)
  | VObj _ (OError _ m) => ret (VStr m)
  | VObj _ (OObject props _) => ret (lookup "message" props)
  | _ => ret VUndef
  end.

Definition or (result defaultValue : value) : M W value :=
  r <- destructure result ;;
  let '(ok, _, data) := r in
  ret (if truthy ok then data else defaultValue).

Definition map (result : value) (fn : value -> M W value) : M W value :=
  r <- destructure result ;;
  let '(ok, err, data) := r in
  if truthy ok then
    u <- fn data ;;
    tuple (VBool true) VNull u
  else
    tuple (VBool false) err VNull.

(** One step of a pipe: called with the current value, it throws or
    returns a promise. *)
Definition step : Type := value -> M W promise.

(** The loop of [pipe]: the catch clause returns from the function. *)
Fixpoint pipe_loop (current : value) (fns : list step) : M W value :=
  match fns with
  | [] => tuple (VBool true) VNull current
  | fn :: rest =>
      fun s =>
        match (p <- fn current ;; await p) s with
        | (s', Normal next) => pipe_loop next rest s'
        | (s', Throw err) =>
            (error <- SafeError_from err ;;
             tuple (VBool false) error VNull) s'
        end
  end.

Definition pipe (initial : value) (fns : list step) : State W -> State W * promise :=
  async (pipe_loop initial fns).

Definition format (result : value) : M W string :=
  r <- destructure result ;;
  let '(ok, err, data) := r in
  if truthy ok then
    j <- JSON_stringify data ;;
    text <- lift (String_ j) ;;
    ret ("[OK] data: " ++ text)
  else
    m <- get_message err ;;
    text <- lift (String_ m) ;;
    ret ("[ERR] error: " ++ text).

Definition parse (str : string) : M W value :=
  if startsWith str "[OK] data: " then
    let dataStr := slice str (String.length "[OK] data: ") in
    data <- JSON_parse dataStr ;;
    tuple (VBool true) VNull data
  else if startsWith str "[ERR] error: " then
    let message := slice str (String.length "[ERR] error: ") in
    error <- new_SafeError message None ;;
    tuple (VBool false) error VNull
  else
    e <- new_Error "Error" ("Invalid SafeResult format: " ++ str) ;;
    throw e.

End Utils.

(** ** Vocabulary of the specification *)

Section Vocabulary.

Context {W : Type}.

(** The failing tuple [false, error, null] and the success tuple
    [true, null, data], as the object with identity [id]. *)
Definition failing (id : nat) (error : value) : value :=
  VObj id (OArray [VBool false; error; VNull]).

Definition success (id : nat) (data : value) : value :=
  VObj id (OArray [VBool true; VNull; data]).

(** The state after one allocation. *)
Definition bump (s : State W) : State W := mkState (S (next_id s)) (world s).

(** The invariant of section 3, as written: exactly one of the error and
    data slots is the empty sentinel, and the flag tells which. *)
Definition is_empty (v : value) : bool :=
  match v with
  | VNull => true
  | _ => false
  end.

Definition exactly_one_empty (t : value) : Prop :=
  match t with
  | VObj _ (OArray [VBool flag; err; data]) =>
      is_empty err = negb (is_empty data)
      /\ (flag = true <-> is_empty err = true)
      /\ (flag = false <-> is_empty data = true)
  | _ => False
  end.

(** What the two tuple types of src/types.ts say: the flag is a boolean, a
    true flag comes with a null error slot, a false flag with a null data
    slot. *)
Definition SafeResult (t : value) : Prop :=
  match t with
  | VObj _ (OArray [VBool flag; err; data]) =>
      (flag = true -> err = VNull) /\ (flag = false -> data = VNull)
  | _ => False
  end.

(** An error transformer that returns on every input. *)
Definition returns (errorTransformer : option (@ErrorTransformer W)) : Prop :=
  forall f, errorTransformer = Some f ->
  forall err s, exists s' e, f err s = (s', Normal e).

(** A promise that is pending or fulfilled. *)
Definition not_rejected (p : slot) : Prop :=
  match p with
  | Some (Rejected _) => False
  | _ => True
  end.

(** The value x was thrown by the normalization of some raw failure: by
    the transformer when there is one, by SafeError.from otherwise. *)
Definition normalization_threw (errorTransformer : option (@ErrorTransformer W))
    (x : value) : Prop :=
  exists r s0 s1, normalize errorTransformer r s0 = (s1, Throw x).

(** The two tuples in which both slots are empty, and how the second one
    comes about. *)
Definition empty_payload (t : value) : Prop := exists id, t = success id VNull.

Definition empty_error (t : value) : Prop := exists id, t = failing id VNull.

Definition transformer_gave_null (errorTransformer : option (@ErrorTransformer W)) : Prop :=
  exists T r s0 s1, errorTransformer = Some T /\ T r s0 = (s1, Normal VNull).

(** The invariant of section 3 with its two exceptions: the tuple has the
    shape the types give it, and exactly one slot is empty unless the
    payload is null or a transformer returned null as the error. *)
Definition one_empty_unless_null (errorTransformer : option (@ErrorTransformer W))
    (t : value) : Prop :=
  SafeResult t
  /\ (exactly_one_empty t
      \/ empty_payload t
      \/ (empty_error t /\ transformer_gave_null errorTransformer)).

(** A promise that, if fulfilled, is fulfilled with such a tuple. *)
Definition fulfilled_well (errorTransformer : option (@ErrorTransformer W))
    (p : slot) : Prop :=
  forall t, p = Some (Fulfilled t) -> one_empty_unless_null errorTransformer t.

(** The message an error-like object carries. *)
Definition carries_message (v : value) : option string :=
  match v with
  | VObj _ (OSafeError m _ _) => Some m
  | VObj _ (OError _ m) => Some m
  | VObj _ (OObject props _) =>
      match lookup "message" props with
      | VStr m => Some m
      | _ => None
      end
  | _ => None
  end.

(** The first time the callback is invoked, in [fn]'s own turn or in a
    later one: the state at that point and the two arguments. *)
Definition first_call (fn : @adapter W) (s : State W) : option (State W * value * value) :=
  match advance (body fn) s with
  | (Invoke err result _, s0) => Some (s0, err, result)
  | (Return, s0) =>
      match later fn with
      | (err, result) :: _ => Some (s0, err, result)
      | [] => None
      end
  | _ => None
  end.

(** [fn] throws before it has invoked the callback: the state at that
    point and what is thrown. *)
Definition throws_first (fn : @adapter W) (s : State W) : option (State W * value) :=
  match advance (body fn) s with
  | (Raise r, s0) => Some (s0, r)
  | _ => None
  end.

(** Steps that all succeed, run one after the other from [current]: the
    state and the value they end with. *)
Fixpoint run_steps (current : value) (fns : list (@step W)) (s : State W)
  : option (State W * value) :=
  match fns with
  | [] => Some (s, current)
  | fn :: rest =>
      match fn current s with
      | (s', Normal (Fulfilled next)) => run_steps next rest s'
      | _ => None
      end
  end.

(** The raw failure of a step: what it throws, or what its promise
    rejects with. *)
Definition failure (c : completion promise) : option value :=
  match c with
  | Throw r => Some r
  | Normal (Rejected r) => Some r
  | Normal (Fulfilled _) => None
  end.

(** The instrumentation of the pipe test (Property 10): step [i] pushes
    [i] on the callOrder array before it does anything else.  The array is
    kept next to the world the steps act on, out of their reach. *)
Definition traced (i : nat) (fn : @step W) : @step (list nat * W) :=
  fun v s =>
    let (s', c) := fn v (mkState (next_id s) (snd (world s))) in
    (mkState (next_id s') ((fst (world s) ++ [i])%list, world s'), c).

Fixpoint traced_from (i : nat) (fns : list (@step W)) : list (@step (list nat * W)) :=
  match fns with
  | [] => []
  | fn :: rest => traced i fn :: traced_from (S i) rest
  end.

Definition with_calls (callOrder : list nat) (s : State W) : State (list nat * W) :=
  mkState (next_id s) (callOrder, world s).

End Vocabulary.

(** Deep equality of two values: the same data, whatever the identities of
    the objects that hold it. *)
Fixpoint deep_equal (a b : value) : bool :=
  match a, b with
  | VUndef, VUndef => true
  | VNull, VNull => true
  | VBool x, VBool y => Bool.eqb x y
  | VNum (Int x), VNum (Int y) => Z.eqb x y
  | VNum NaN, VNum NaN => true
  | VStr x, VStr y => String.eqb x y
  | VObj _ (OArray xs), VObj _ (OArray ys) =>
      (fix all2 (l : list value) (r : list value) : bool :=
         match l, r with
         | [], [] => true
         | x :: l', y :: r' => deep_equal x y && all2 l' r'
         | _, _ => false
         end) xs ys
  | VObj _ (OObject ps _), VObj _ (OObject qs _) =>
      (fix all2 (l : list (string * value)) (r : list (string * value)) : bool :=
         match l, r with
         | [], [] => true
         | (k, x) :: l', (k', y) :: r' =>
             String.eqb k k' && deep_equal x y && all2 l' r'
         | _, _ => false
         end) ps qs
  | VObj _ (OError n m), VObj _ (OError n' m') => String.eqb n n' && String.eqb m m'
  | VObj _ (OSafeError m c k), VObj _ (OSafeError m' c' k') =>
      String.eqb m m' && deep_equal c c' && deep_equal k k'
  | _, _ => false
  end.

(** A payload is losslessly encodable when the host decodes its encoding
    to a value that deep-equals it. *)
Definition lossless {W} (JSON_stringify : value -> M W value)
    (JSON_parse : string -> M W value) (data : value) (s : State W) : Prop :=
  exists text s1 s2 data',
    JSON_stringify data s = (s1, Normal (VStr text))
    /\ JSON_parse text s1 = (s2, Normal data')
    /\ deep_equal data data' = true.

(** A JSON codec for scalars (null, booleans, integers), enough to run
    format and parse on concrete tuples.  It stands in for the host's
    codec on these inputs only: its parser also takes numerals that
    JSON.parse refuses, such as 007. *)
Module ScalarJSON.

Definition stringify {W} (v : value) : M W value :=
  match v with
  | VNull => ret (VStr "null")
  | VBool true => ret (VStr "true")
  | VBool false => ret (VStr "false")
  | VNum (Int z) => ret (VStr (NilZero.string_of_int (Z.to_int z)))
  | _ => ret VUndef
  end.

Definition parse {W} (text : string) : M W value :=
  if String.eqb text "null" then ret VNull
  else if String.eqb text "true" then ret (VBool true)
  else if String.eqb text "false" then ret (VBool false)
  else
    match NilZero.int_of_string text with
    | Some d => ret (VNum (Int (Z.of_int d)))
    | None => e <- new_Error "SyntaxError" "Unexpected token" ;; throw e
    end.

Definition scalar (v : value) : bool :=
  match v with
  | VNull | VBool _ | VNum (Int _) => true
  | _ => false
  end.

End ScalarJSON.

(** The transformer of tests/core.test.ts, Property 7, and one that throws
    what it is given. *)
Definition custom : @ErrorTransformer unit :=
  fun err =>
    alloc (OObject [("type", VStr "custom"); ("original", err)] (Renders "[object Object]")).

Definition rethrow : @ErrorTransformer unit := fun err => throw err.

(** The scenario of section 8:
    pipe(0, a => a + 1, b => { throw new Error("x") }, c => c + 1). *)
Definition increment : @step unit :=
  fun v =>
    match v with
    | VNum (Int z) => ret (Fulfilled (VNum (Int (z + 1))))
    | _ => ret (Fulfilled v)
    end.

Definition throw_x : @step unit :=
  fun _ => e <- new_Error "Error" "x" ;; throw e.

(** Functions to map with: doubling a number, and one that throws its
    argument. *)
Definition twice : value -> M unit value :=
  fun v =>
    match v with
    | VNum (Int z) => ret (VNum (Int (2 * z)))
    | _ => ret v
    end.

Definition refuse : value -> M unit value := fun v => throw v.

(** A step that fulfils with its input, and one that rejects with the
    string "no". *)
Definition pass : @step unit := fun v => ret (Fulfilled v).

Definition reject_no : @step unit := fun _ => ret (Rejected (VStr "no")).

(** A transformer that refuses numbers, throwing a string, and returns
    anything else as it is. *)
Definition fussy : @ErrorTransformer unit :=
  fun err =>
    match err with
    | VNum _ => throw (VStr "not a number, please")
    | _ => ret err
    end.

(** () => { throw new Error("x") } *)
Definition throw_x_value : M unit value :=
  e <- new_Error "Error" "x" ;; throw e.

(** * Properties *)

Section Normalization.

Context {W : Type}.

Implicit Types (s : State W) (v err : value).

(** Default normalization always returns, and what it returns is a
    SafeError; it allocates at most one object and leaves the world alone. *)
Lemma SafeError_from_returns v s :
  exists s' e,
    SafeError_from v s = (s', Normal e)
    /\ instanceof_SafeError e = true
    /\ world s' = world s.
Proof.
  unfold SafeError_from.
  destruct (instanceof_SafeError v) eqn:Hv.
  - exists s, v. auto.
  - destruct v as [ | | b | n | str | id [m c k | n m | elems | props r]];
      try discriminate Hv;
      try (unfold bind, try_catch, lift, new_SafeError, alloc;
           match goal with
           | |- context [String_ ?x] => destruct (String_ x)
           | _ => idtac
           end;
           cbn; eexists _, _; repeat split; reflexivity).
Qed.

(** C9.  Default normalization preserves identity on normalized input:
    SafeError.from of a SafeError returns that very instance and allocates
    nothing; hence normalizing twice gives what normalizing once gives, for
    every value. *)
Theorem from_idempotent :
  (forall id m c k s,
      SafeError_from (VObj id (OSafeError m c k)) s
      = (s, Normal (VObj id (OSafeError m c k))))
  /\ (forall v s, exists s1 e,
         SafeError_from v s = (s1, Normal e)
         /\ SafeError_from e s1 = (s1, Normal e)).
Proof.
  split.
  - reflexivity.
  - intros v s.
    destruct (SafeError_from_returns v s) as (s1 & e & Hrun & Hinst & _).
    exists s1, e. split; [exact Hrun | ].
    unfold SafeError_from. now rewrite Hinst.
Qed.

(** C3, as amended.  For an instance of the host Error type that is not
    already a SafeError, default normalization builds a new SafeError whose
    message is the error's message and whose cause is the error itself. *)
Theorem from_Error_keeps_message :
  forall id name m s,
    SafeError_from (VObj id (OError name m)) s
    = (bump s, Normal (VObj (next_id s) (OSafeError m (VObj id (OError name m)) VUndef))).
Proof. reflexivity. Qed.

End Normalization.

(** C3, as stated, fails on an error-like object that is not an Error: the
    object literal { message: "boom" } is rendered with String, and its
    message is lost. *)
Lemma from_plain_object_loses_message :
  let v := VObj 0 (OObject [("message", VStr "boom")] (Renders "[object Object]")) in
  carries_message v = Some "boom"
  /\ SafeError_from v (mkState 1 tt)
     = (mkState 2 tt, Normal (VObj 1 (OSafeError "[object Object]" v VUndef)))
  /\ "[object Object]" <> "boom".
Proof.
  repeat split. discriminate.
Qed.

Section Wrappers.

Context {W : Type}.

Implicit Types (s : State W) (v err : value)
  (errorTransformer : option (@ErrorTransformer W)).

(** C7.  Success identity: [to] on a promise fulfilled with V, and [sync]
    on a function returning V, give the new tuple [true, null, V]: the
    payload is V itself and the error slot is null. *)
Theorem success_identity :
  forall v errorTransformer,
    (forall s, to (Fulfilled v) errorTransformer s
               = (bump s, Fulfilled (success (next_id s) v)))
    /\ (forall (fn : M W value) s s',
           fn s = (s', Normal v) ->
           sync fn errorTransformer s
           = (bump s', Normal (success (next_id s') v))).
Proof.
  intros v errorTransformer. split.
  - reflexivity.
  - intros fn s s' Hfn.
    unfold sync, try_catch, bind. now rewrite Hfn.
Qed.

End Wrappers.

(** The scenarios of section 8 for [to] and [sync]. *)
Example to_scenarios :
  let s : State unit := mkState 0 tt in
  to (Fulfilled (VNum (Int 42))) None s
  = (mkState 1 tt, Fulfilled (success 0 (VNum (Int 42))))
  /\ to (Rejected (VObj 0 (OError "Error" "boom"))) None (mkState 1 tt)
     = (mkState 3 tt,
        Fulfilled (failing 2 (VObj 1 (OSafeError "boom" (VObj 0 (OError "Error" "boom")) VUndef)))).
Proof. split; reflexivity. Qed.

Example sync_scenarios :
  let s : State unit := mkState 0 tt in
  sync (throw (VStr "oops")) None s
  = (mkState 2 tt, Normal (failing 1 (VObj 0 (OSafeError "oops" VUndef VUndef))))
  /\ sync (throw (VNum (Int 42))) None s
     = (mkState 2 tt, Normal (failing 1 (VObj 0 (OSafeError "42" (VNum (Int 42)) VUndef)))).
Proof. split; reflexivity. Qed.

Lemma success_identity_witness :
  let payload := VObj 0 (OObject [("name", VStr "ada")] (Renders "[object Object]")) in
  sync (W := unit) (ret payload) None (mkState 1 tt)
  = (mkState 2 tt, Normal (success 1 payload)).
Proof.
  intro payload.
  apply (proj2 (success_identity payload None) (ret payload) (mkState 1 tt) (mkState 1 tt)).
  reflexivity.
Defined.

Section Combinators.

Context {W : Type}.

Implicit Types (s : State W) (v err : value).

(** C10.  A pipe without steps fulfils with [true, null, initial], the
    payload being the initial value itself. *)
Theorem pipe_no_steps :
  forall initial s,
    pipe initial [] s = (bump s, Fulfilled (success (next_id s) initial)).
Proof. reflexivity. Qed.

(** C2, as amended.  On a false-flag tuple, [map] does not call [fn] and
    returns a newly built tuple with the same slots: false, the same error
    reference, null.  The new tuple is not the one passed in.  On a
    true-flag tuple whose payload [fn] maps to u, it returns
    [true, null, u]. *)
Theorem map_success_only :
  forall id (fn : value -> M W value),
    (forall error s,
        map (failing id error) fn s = (bump s, Normal (failing (next_id s) error))
        /\ (id < next_id s -> failing (next_id s) error <> failing id error))
    /\ (forall v u s s',
           fn v s = (s', Normal u) ->
           map (success id v) fn s = (bump s', Normal (success (next_id s') u))).
Proof.
  intros id fn. split.
  - intros error s. split; [reflexivity | ].
    intros Hlt Heq. injection Heq as Heq. lia.
  - intros v u s s' Hfn.
    unfold map, success, bind, destructure, ret. cbn.
    now rewrite Hfn.
Qed.

End Combinators.

Lemma map_success_only_witness :
  let double := fun v : value =>
    match v with
    | VNum (Int z) => ret (W := unit) (VNum (Int (2 * z)))
    | _ => ret v
    end in
  failing 1 (VStr "e") <> failing 0 (VStr "e")
  /\ map (success 0 (VNum (Int 21))) double (mkState 1 tt)
     = (mkState 2 tt, Normal (success 1 (VNum (Int 42)))).
Proof.
  intro double. split.
  - apply (proj1 (map_success_only 0 double) (VStr "e") (mkState 1 tt)).
    cbn. lia.
  - apply (proj2 (map_success_only 0 double) (VNum (Int 21)) (VNum (Int 42))
             (mkState 1 tt) (mkState 1 tt)).
    reflexivity.
Defined.

(** C2, as stated, fails: the failing tuple that [to] produced is handed
    to [map], and what comes back is another tuple, not the same one. *)
Lemma map_rebuilds_failing_tuple :
  let s0 : State unit := mkState 0 tt in
  let t := failing 1 (VObj 0 (OSafeError "boom" VUndef VUndef)) in
  to (Rejected (VStr "boom")) None s0 = (mkState 2 tt, Fulfilled t)
  /\ exists t', map t (fun v => ret v) (mkState 2 tt) = (mkState 3 tt, Normal t')
                /\ t' <> t.
Proof.
  cbn. split; [reflexivity | ].
  eexists. split; [reflexivity | ].
  unfold failing. intro H. discriminate H.
Qed.

Section Pipe.

Context {W : Type}.

Implicit Types (s : State W) (v : value) (fn : @step W) (callOrder : list nat).

Lemma traced_run i fn v callOrder s s' c :
  fn v s = (s', c) ->
  traced i fn v (with_calls callOrder s) = (with_calls (callOrder ++ [i]) s', c).
Proof.
  intros Hfn. unfold traced, with_calls. cbn.
  destruct s as [n w]. cbn. now rewrite Hfn.
Qed.

Lemma seq_snoc_front i n callOrder :
  ((callOrder ++ [i]) ++ seq (S i) n = callOrder ++ seq i (S n))%list.
Proof. now rewrite <- app_assoc. Qed.

(** While the steps succeed the loop goes on, and each has pushed its
    index. *)
Lemma pipe_loop_all_succeed fns :
  forall i initial s callOrder s1 v1,
    run_steps initial fns s = Some (s1, v1) ->
    pipe_loop initial (traced_from i fns) (with_calls callOrder s)
    = (bump (with_calls (callOrder ++ seq i (List.length fns)) s1),
       Normal (success (next_id s1) v1)).
Proof.
  induction fns as [ | fn rest IH]; intros i initial s callOrder s1 v1 Hrun.
  - cbn in Hrun. injection Hrun as -> ->. cbn.
    now rewrite app_nil_r.
  - cbn [run_steps] in Hrun.
    destruct (fn initial s) as [s' [[next | r] | r]] eqn:Hfn; try discriminate.
    cbn [traced_from pipe_loop List.length]. unfold bind.
    rewrite (traced_run i _ _ callOrder _ Hfn). cbn [await ret].
    rewrite (IH (S i) next s' (callOrder ++ [i])%list s1 v1 Hrun).
    now rewrite seq_snoc_front.
Qed.

(** The first failing step ends the loop: nothing after it is called. *)
Lemma pipe_loop_first_failure pre :
  forall i initial s callOrder fn post s1 v1 s2 c r,
    run_steps initial pre s = Some (s1, v1) ->
    fn v1 s1 = (s2, c) ->
    failure c = Some r ->
    pipe_loop initial (traced_from i (pre ++ fn :: post)) (with_calls callOrder s)
    = (error <- SafeError_from r ;; tuple (VBool false) error VNull)
        (with_calls (callOrder ++ seq i (S (List.length pre))) s2).
Proof.
  induction pre as [ | f0 pre IH];
    intros i initial s callOrder fn post s1 v1 s2 c r Hrun Hfn Hfail.
  - cbn in Hrun. injection Hrun as -> ->.
    cbn [app traced_from pipe_loop List.length seq]. unfold bind at 1.
    rewrite (traced_run i _ _ callOrder _ Hfn).
    destruct c as [[next | r'] | r']; cbn in Hfail; try discriminate;
      injection Hfail as ->; reflexivity.
  - cbn [run_steps] in Hrun.
    destruct (f0 initial s) as [s' [[next | r'] | r']] eqn:Hf0; try discriminate.
    cbn [app traced_from pipe_loop List.length]. unfold bind at 1.
    rewrite (traced_run i _ _ callOrder _ Hf0). cbn [await ret].
    rewrite (IH (S i) next s' (callOrder ++ [i])%list fn post s1 v1 s2 c r Hrun Hfn Hfail).
    now rewrite seq_snoc_front.
Qed.

(** C1.  The steps of a pipe run in order.  When the steps before index K
    succeed and step K fails with r (it throws r, or its promise rejects
    with r), the steps called are exactly 0..K, in that order, the world is
    as step K left it, and the pipe fulfils with [false, e, null] where e
    is the default normalization of r.  When no step fails, all are called
    in order and the pipe fulfils with [true, null, v] where v is the value
    of the last step. *)
Theorem pipe_short_circuit :
  forall initial s callOrder,
    (forall pre fn post s1 v1 s2 c r,
        run_steps initial pre s = Some (s1, v1) ->
        fn v1 s1 = (s2, c) ->
        failure c = Some r ->
        exists final e,
          SafeError_from r (with_calls (callOrder ++ seq 0 (S (List.length pre))) s2)
          = (final, Normal e)
          /\ world final = ((callOrder ++ seq 0 (S (List.length pre)))%list, world s2)
          /\ pipe initial (traced_from 0 (pre ++ fn :: post)) (with_calls callOrder s)
             = (bump final, Fulfilled (failing (next_id final) e)))
    /\ (forall fns s1 v1,
           run_steps initial fns s = Some (s1, v1) ->
           pipe initial (traced_from 0 fns) (with_calls callOrder s)
           = (bump (with_calls (callOrder ++ seq 0 (List.length fns)) s1),
              Fulfilled (success (next_id s1) v1))).
Proof.
  intros initial s callOrder. split.
  - intros pre fn post s1 v1 s2 c r Hrun Hfn Hfail.
    destruct (SafeError_from_returns r
                (with_calls (callOrder ++ seq 0 (S (List.length pre))) s2))
      as (final & e & Hfrom & _ & Hworld).
    exists final, e. repeat split; [exact Hfrom | exact Hworld | ].
    unfold pipe, async.
    rewrite (pipe_loop_first_failure pre 0 initial s callOrder fn post Hrun Hfn Hfail).
    unfold bind. now rewrite Hfrom.
  - intros fns s1 v1 Hrun.
    unfold pipe, async.
    now rewrite (pipe_loop_all_succeed fns 0 initial s callOrder Hrun).
Qed.

End Pipe.

Lemma pipe_short_circuit_witness :
  (exists final e,
      SafeError_from (VObj 0 (OError "Error" "x"))
        (with_calls ([] ++ seq 0 2) (mkState 1 tt)) = (final, Normal e)
      /\ world final = (([] ++ seq 0 2)%list, tt)
      /\ pipe (VNum (Int 0)) (traced_from 0 ([increment] ++ throw_x :: [increment]))
           (with_calls [] (mkState 0 tt))
         = (bump final, Fulfilled (failing (next_id final) e)))
  /\ pipe (VNum (Int 0)) (traced_from 0 [increment; increment])
       (with_calls [] (mkState 0 tt))
     = (bump (with_calls ([] ++ seq 0 2) (mkState 0 tt)),
        Fulfilled (success 0 (VNum (Int 2)))).
Proof.
  split.
  - apply (proj1 (pipe_short_circuit (VNum (Int 0)) (mkState 0 tt) [])
             [increment] throw_x [increment]
             (mkState 0 tt) (VNum (Int 1)) (mkState 1 tt)
             (Throw (VObj 0 (OError "Error" "x"))) (VObj 0 (OError "Error" "x")));
      reflexivity.
  - apply (proj2 (pipe_short_circuit (VNum (Int 0)) (mkState 0 tt) [])
             [increment; increment] (mkState 0 tt) (VNum (Int 2))).
    reflexivity.
Defined.

(** The same scenario, evaluated: two steps were called, and the pipe
    fulfils with the failing tuple carrying the message "x". *)
Example pipe_scenario :
  pipe (VNum (Int 0)) (traced_from 0 [increment; throw_x; increment])
    (with_calls [] (mkState 0 tt))
  = (mkState 3 ([0; 1], tt),
     Fulfilled (failing 2 (VObj 1 (OSafeError "x" (VObj 0 (OError "Error" "x")) VUndef)))).
Proof. reflexivity. Qed.

Section Callback.

Context {W : Type}.

Implicit Types (s : State W) (p : slot) (fn : @script W)
  (errorTransformer : option (@ErrorTransformer W)).

Lemma SafeResult_success id v : SafeResult (success id v).
Proof. split; [reflexivity | discriminate]. Qed.

Lemma SafeResult_failing id e : SafeResult (failing id e).
Proof. split; [discriminate | reflexivity]. Qed.

Lemma normalize_returns errorTransformer :
  returns errorTransformer ->
  forall err s, exists s' e, normalize errorTransformer err s = (s', Normal e).
Proof.
  intros Hret err s. destruct errorTransformer as [f | ]; cbn.
  - now apply Hret.
  - destruct (SafeError_from_returns err s) as (s' & e & H & _). eauto.
Qed.

(** The failing tuple built in every catch clause. *)
Lemma failing_tuple_run errorTransformer err s :
  (error <- normalize errorTransformer err ;; tuple (VBool false) error VNull) s
  = match normalize errorTransformer err s with
    | (s1, Normal e) => (bump s1, Normal (failing (next_id s1) e))
    | (s1, Throw x) => (s1, Throw x)
    end.
Proof.
  unfold bind. now destruct (normalize errorTransformer err s) as [s1 [e | x]].
Qed.

Lemma cb_callback_falsy errorTransformer err result p s :
  truthy err = false ->
  cb_callback errorTransformer err result p s
  = (bump s, Normal (resolve p (success (next_id s) result))).
Proof. intros H. unfold cb_callback. now rewrite H. Qed.

Lemma cb_callback_truthy errorTransformer err result p s :
  truthy err = true ->
  cb_callback errorTransformer err result p s
  = match normalize errorTransformer err s with
    | (s1, Normal e) => (bump s1, Normal (resolve p (failing (next_id s1) e)))
    | (s1, Throw x) => (s1, Throw x)
    end.
Proof.
  intros H. unfold cb_callback. rewrite H. unfold bind.
  now destruct (normalize errorTransformer err s) as [s1 [e | x]].
Qed.

(** The callback resolves with a well-formed tuple, or throws what the
    transformer threw. *)
Lemma cb_callback_cases errorTransformer err result p s :
  (exists s' t, cb_callback errorTransformer err result p s = (s', Normal (resolve p t))
                /\ SafeResult t)
  \/ (exists s' x, cb_callback errorTransformer err result p s = (s', Throw x)
                   /\ normalize errorTransformer err s = (s', Throw x)).
Proof.
  destruct (truthy err) eqn:Ht.
  - rewrite cb_callback_truthy by exact Ht.
    destruct (normalize errorTransformer err s) as [s1 [e | x]].
    + left. eexists _, _. split; [reflexivity | apply SafeResult_failing].
    + right. eauto.
  - rewrite cb_callback_falsy by exact Ht.
    left. eexists _, _. split; [reflexivity | apply SafeResult_success].
Qed.

Lemma run_script_advance callback fn :
  forall p s,
    run_script callback fn p s
    = run_script callback (fst (advance fn s)) p (snd (advance fn s)).
Proof.
  induction fn as [ | r | act k IH | err result k IH]; intros p s; try reflexivity.
  cbn [advance run_script]. apply IH.
Qed.

(** A property of the promise that every resolution with a well-formed
    tuple preserves is preserved by all that cb runs. *)
Section SlotInvariant.

Variable P : slot -> Prop.
Hypothesis P_resolve : forall p t, SafeResult t -> P p -> P (resolve p t).

Lemma run_script_inv errorTransformer fn :
  forall p s s' p' c,
    P p ->
    run_script (cb_callback errorTransformer) fn p s = (s', p', c) ->
    P p'.
Proof.
  induction fn as [ | r | act k IH | err result k IH]; intros p s s' p' c HP Hrun;
    cbn [run_script] in Hrun.
  - now injection Hrun as <- <- <-.
  - now injection Hrun as <- <- <-.
  - eapply IH; eassumption.
  - destruct (cb_callback_cases errorTransformer err result p s)
      as [(s1 & t & Hcb & Ht) | (s1 & x & Hcb & _)]; rewrite Hcb in Hrun.
    + eapply IH; [ | eassumption]. now apply P_resolve.
    + eapply IH; eassumption.
Qed.

Lemma cb_executor_inv errorTransformer fn p s s' p' c :
  P p ->
  cb_executor fn errorTransformer p s = (s', p', c) ->
  P p'.
Proof.
  intros HP. unfold cb_executor.
  destruct (run_script (cb_callback errorTransformer) fn p s) as [[s1 p1] [[] | err]] eqn:Hrun;
    assert (HP1 : P p1) by (eapply run_script_inv; eassumption).
  - now intros [= <- <- <-].
  - rewrite failing_tuple_run.
    destruct (normalize errorTransformer err s1) as [s2 [e | x]]; intros [= <- <- <-].
    + apply P_resolve; [apply SafeResult_failing | exact HP1].
    + exact HP1.
Qed.

Lemma run_later_inv errorTransformer calls :
  forall p uncaught s s' p' uncaught',
    P p ->
    run_later (cb_callback errorTransformer) calls p uncaught s = (s', p', uncaught') ->
    P p'.
Proof.
  induction calls as [ | [err result] rest IH]; intros p uncaught s s' p' uncaught' HP Hrun;
    cbn [run_later] in Hrun.
  - now injection Hrun as <- <- <-.
  - destruct (cb_callback_cases errorTransformer err result p s)
      as [(s1 & t & Hcb & Ht) | (s1 & x & Hcb & _)]; rewrite Hcb in Hrun.
    + eapply IH; [ | eassumption]. now apply P_resolve.
    + eapply IH; eassumption.
Qed.

Hypothesis P_reject : forall p x, P p -> P (reject p x).

Lemma cb_inv (fn : adapter) errorTransformer s s' p' uncaught :
  P None ->
  cb fn errorTransformer s = (s', p', uncaught) ->
  P p'.
Proof.
  intros HP. unfold cb.
  destruct (cb_executor (body fn) errorTransformer None s) as [[s1 p1] [[] | x]] eqn:Hex;
    assert (HP1 : P p1) by (eapply cb_executor_inv; eassumption); intros Hrun.
  - eapply run_later_inv; eassumption.
  - eapply run_later_inv; [ | eassumption]. now apply P_reject.
Qed.

End SlotInvariant.

End Callback.

Section CallbackAdapter.

Context {W : Type}.

Implicit Types (s : State W) (p : slot) (fn : @adapter W)
  (errorTransformer : option (@ErrorTransformer W)).

(** The promise settles once: a settled promise stays as it is. *)
Lemma settled_resolve q p t : SafeResult t -> p = Some q -> resolve p t = Some q.
Proof. now intros _ ->. Qed.

Lemma run_later_settled errorTransformer calls q uncaught s :
  exists s' uncaught',
    run_later (cb_callback errorTransformer) calls (Some q) uncaught s
    = (s', Some q, uncaught').
Proof.
  destruct (run_later (cb_callback errorTransformer) calls (Some q) uncaught s)
    as [[s' p'] uncaught'] eqn:Hrun.
  exists s', uncaught'.
  assert (p' = Some q) as ->; [ | reflexivity].
  eapply run_later_inv with (P := fun p => p = Some q);
    [apply settled_resolve | reflexivity | exact Hrun].
Qed.

Lemma run_script_settled errorTransformer (body : @script W) q s :
  exists s' c,
    run_script (cb_callback errorTransformer) body (Some q) s = (s', Some q, c).
Proof.
  destruct (run_script (cb_callback errorTransformer) body (Some q) s)
    as [[s' p'] c] eqn:Hrun.
  exists s', c.
  assert (p' = Some q) as ->; [ | reflexivity].
  eapply run_script_inv with (P := fun p => p = Some q);
    [apply settled_resolve | reflexivity | exact Hrun].
Qed.

(** Once [fn]'s own turn has settled the promise, that is what cb gives. *)
Lemma cb_settled_in_turn fn errorTransformer s s1 q c :
  run_script (cb_callback errorTransformer) (body fn) None s = (s1, Some q, c) ->
  exists s' uncaught, cb fn errorTransformer s = (s', Some q, uncaught).
Proof.
  intros Hrun. unfold cb, cb_executor. rewrite Hrun.
  destruct c as [[] | err].
  - apply run_later_settled.
  - rewrite failing_tuple_run.
    destruct (normalize errorTransformer err s1) as [s2 [e | x]];
      apply run_later_settled.
Qed.

(** The callback is first invoked in [fn]'s own turn. *)
Lemma cb_invoked_in_turn fn errorTransformer s s0 err result k s1 q :
  advance (body fn) s = (Invoke err result k, s0) ->
  cb_callback errorTransformer err result None s0 = (s1, Normal (Some q)) ->
  exists s' uncaught, cb fn errorTransformer s = (s', Some q, uncaught).
Proof.
  intros Hadv Hcb.
  destruct (run_script_settled errorTransformer (k (Normal tt)) q s1) as (s2 & c & Hrest).
  apply (@cb_settled_in_turn fn errorTransformer s s2 q c).
  rewrite run_script_advance, Hadv. cbn [fst snd run_script].
  now rewrite Hcb.
Qed.

(** [fn] returns without having invoked the callback, which is first
    invoked in a later turn. *)
Lemma cb_invoked_later fn errorTransformer s s0 err result rest s1 q :
  advance (body fn) s = (Return, s0) ->
  later fn = (err, result) :: rest ->
  cb_callback errorTransformer err result None s0 = (s1, Normal (Some q)) ->
  exists s' uncaught, cb fn errorTransformer s = (s', Some q, uncaught).
Proof.
  intros Hadv Hlater Hcb. unfold cb, cb_executor.
  rewrite run_script_advance, Hadv, Hlater. cbn [fst snd run_script run_later].
  rewrite Hcb. apply run_later_settled.
Qed.

(** [fn] throws without having invoked the callback. *)
Lemma cb_thrown_in_turn fn errorTransformer s s0 r s1 e :
  advance (body fn) s = (Raise r, s0) ->
  normalize errorTransformer r s0 = (s1, Normal e) ->
  exists s' uncaught,
    cb fn errorTransformer s = (s', Some (Fulfilled (failing (next_id s1) e)), uncaught).
Proof.
  intros Hadv Hnorm. unfold cb, cb_executor.
  rewrite run_script_advance, Hadv. cbn [fst snd run_script].
  rewrite failing_tuple_run, Hnorm. cbn [resolve].
  apply run_later_settled.
Qed.

Lemma cb_first_call fn errorTransformer s s0 err result s1 q :
  first_call fn s = Some (s0, err, result) ->
  cb_callback errorTransformer err result None s0 = (s1, Normal (Some q)) ->
  exists s' uncaught, cb fn errorTransformer s = (s', Some q, uncaught).
Proof.
  unfold first_call.
  destruct (advance (body fn) s) as [[ | r | act k | err' result' k] s0'] eqn:Hadv;
    try discriminate.
  - destruct (later fn) as [ | [err' result'] rest] eqn:Hlater; try discriminate.
    intros [= -> -> ->] Hcb. eapply cb_invoked_later; eassumption.
  - intros [= -> -> ->] Hcb. eapply cb_invoked_in_turn; eassumption.
Qed.

(** What the first signal of [fn] makes of the promise. *)
Lemma cb_truthiness_core :
  forall fn errorTransformer s s0,
    (forall err result,
        first_call fn s = Some (s0, err, result) ->
        (truthy err = false ->
         exists s' uncaught,
           cb fn errorTransformer s
           = (s', Some (Fulfilled (success (next_id s0) result)), uncaught))
        /\ (truthy err = true ->
            forall s1 e,
              normalize errorTransformer err s0 = (s1, Normal e) ->
              exists s' uncaught,
                cb fn errorTransformer s
                = (s', Some (Fulfilled (failing (next_id s1) e)), uncaught)))
    /\ (forall r s1 e,
           throws_first fn s = Some (s0, r) ->
           normalize errorTransformer r s0 = (s1, Normal e) ->
           exists s' uncaught,
             cb fn errorTransformer s
             = (s', Some (Fulfilled (failing (next_id s1) e)), uncaught)).
Proof.
  intros fn errorTransformer s s0. split.
  - intros err result Hfirst. split.
    + intros Hfalsy.
      eapply cb_first_call; [exact Hfirst | ].
      now rewrite cb_callback_falsy by exact Hfalsy.
    + intros Htruthy s1 e Hnorm.
      eapply cb_first_call; [exact Hfirst | ].
      rewrite cb_callback_truthy by exact Htruthy.
      now rewrite Hnorm.
  - intros r s1 e Hthrows Hnorm.
    unfold throws_first in Hthrows.
    destruct (advance (body fn) s) as [[ | r' | act k | err' result' k] s0'] eqn:Hadv;
      try discriminate.
    injection Hthrows as -> ->.
    eapply cb_thrown_in_turn; eassumption.
Qed.


(** C8.  In cb only the truthiness of the callback's first argument
    selects the branch.  When the callback is first invoked with a falsy
    first argument, whatever it is, the promise fulfils with
    [true, null, result]; when it is first invoked with a truthy one whose
    normalization is e, the promise fulfils with [false, e, null]; and when
    [fn] throws r before it has invoked the callback, the promise fulfils
    with [false, e, null] for the normalization e of r: it does not
    reject.  What [fn] does afterwards changes none of this: at every
    invocation the callback passes the tuple of the branch selected by
    truthiness to resolve, and the promise keeps its first settlement. *)
Theorem cb_truthiness_governs :
  forall fn errorTransformer s s0,
    (forall err result,
        first_call fn s = Some (s0, err, result) ->
        (truthy err = false ->
         exists s' uncaught,
           cb fn errorTransformer s
           = (s', Some (Fulfilled (success (next_id s0) result)), uncaught))
        /\ (truthy err = true ->
            forall s1 e,
              normalize errorTransformer err s0 = (s1, Normal e) ->
              exists s' uncaught,
                cb fn errorTransformer s
                = (s', Some (Fulfilled (failing (next_id s1) e)), uncaught)))
    /\ (forall r s1 e,
           throws_first fn s = Some (s0, r) ->
           normalize errorTransformer r s0 = (s1, Normal e) ->
           exists s' uncaught,
             cb fn errorTransformer s
             = (s', Some (Fulfilled (failing (next_id s1) e)), uncaught))
    /\ (forall err result p,
           (truthy err = false ->
            cb_callback errorTransformer err result p s
            = (bump s, Normal (resolve p (success (next_id s) result))))
           /\ (truthy err = true ->
               forall s1 e,
                 normalize errorTransformer err s = (s1, Normal e) ->
                 cb_callback errorTransformer err result p s
                 = (bump s1, Normal (resolve p (failing (next_id s1) e))))).
Proof.
  intros fn errorTransformer s s0.
  destruct (cb_truthiness_core fn errorTransformer s s0) as [Hcall Hthrow].
  split; [exact Hcall | split; [exact Hthrow | ]].
  intros err result p. split.
  - intros Hfalsy. now apply cb_callback_falsy.
  - intros Htruthy s1 e Hnorm.
    rewrite cb_callback_truthy by exact Htruthy. now rewrite Hnorm.
Qed.

End CallbackAdapter.

Lemma cb_truthiness_governs_witness :
  let fn : @adapter unit :=
    mkAdapter (Invoke (VNum (Int 0)) (VStr "payload") (fun _ => Raise (VStr "late")))
              [(VStr "again", VUndef)] in
  let failed : @adapter unit :=
    mkAdapter (Perform (fun s => s) (fun _ => Invoke (VStr "bad") VUndef (fun _ => Return))) [] in
  let thrower : @adapter unit := mkAdapter (Raise (VStr "oops")) [(VNull, VStr "late")] in
  let s := mkState 0 tt in
  (exists s' uncaught,
      cb fn None s = (s', Some (Fulfilled (success 0 (VStr "payload"))), uncaught))
  /\ (exists s' uncaught,
         cb failed None s
         = (s', Some (Fulfilled (failing 1 (VObj 0 (OSafeError "bad" VUndef VUndef)))), uncaught))
  /\ (exists s' uncaught,
         cb thrower None s
         = (s', Some (Fulfilled (failing 1 (VObj 0 (OSafeError "oops" VUndef VUndef)))), uncaught)).
Proof.
  intros fn failed thrower s. repeat split.
  - apply (proj1 (proj1 (cb_truthiness_governs fn None s s)
                    (VNum (Int 0)) (VStr "payload") eq_refl) eq_refl).
  - apply (proj2 (proj1 (cb_truthiness_governs failed None s s)
                    (VStr "bad") VUndef eq_refl) eq_refl
             (mkState 1 tt) (VObj 0 (OSafeError "bad" VUndef VUndef)) eq_refl).
  - apply (proj1 (proj2 (cb_truthiness_governs thrower None s s))
             (VStr "oops") (mkState 1 tt) (VObj 0 (OSafeError "oops" VUndef VUndef))
             eq_refl eq_refl).
Defined.

Section Absorption.

Context {W : Type}.

Implicit Types (s : State W) (p : slot)
  (errorTransformer : option (@ErrorTransformer W)).

Lemma not_rejected_resolve p t : SafeResult t -> not_rejected p -> not_rejected (resolve p t).
Proof. now destruct p. Qed.

Lemma cb_callback_returns errorTransformer :
  returns errorTransformer ->
  forall err result p s, exists s' t,
    cb_callback errorTransformer err result p s = (s', Normal (resolve p t))
    /\ SafeResult t.
Proof.
  intros Hret err result p s.
  destruct (cb_callback_cases errorTransformer err result p s)
    as [H | (s1 & x & _ & Hnorm)]; [exact H | ].
  destruct (normalize_returns Hret err s) as (s2 & e & He). congruence.
Qed.

Lemma run_later_clean errorTransformer calls :
  returns errorTransformer ->
  forall p uncaught s, exists s' p',
    run_later (cb_callback errorTransformer) calls p uncaught s = (s', p', uncaught).
Proof.
  intros Hret. induction calls as [ | [err result] rest IH]; intros p uncaught s.
  - cbn. eauto.
  - cbn [run_later].
    destruct (cb_callback_returns Hret err result p s) as (s1 & t & -> & _).
    apply IH.
Qed.

Lemma cb_executor_returns errorTransformer (fn : @script W) p s :
  returns errorTransformer ->
  exists s' p', cb_executor fn errorTransformer p s = (s', p', Normal tt).
Proof.
  intros Hret. unfold cb_executor.
  destruct (run_script (cb_callback errorTransformer) fn p s) as [[s1 p1] [[] | err]].
  - eauto.
  - rewrite failing_tuple_run.
    destruct (normalize_returns Hret err s1) as (s2 & e & ->). eauto.
Qed.

(** With a transformer that returns, nothing escapes cb: the promise is not
    rejected and no callback throws. *)
Lemma cb_clean (fn : adapter) errorTransformer s :
  returns errorTransformer ->
  exists s' p, cb fn errorTransformer s = (s', p, []) /\ not_rejected p.
Proof.
  intros Hret. unfold cb.
  destruct (cb_executor_returns (body fn) None s Hret) as (s1 & p1 & Hex).
  rewrite Hex.
  destruct (run_later_clean (later fn) Hret p1 [] s1) as (s' & p' & Hlater).
  exists s', p'. split; [exact Hlater | ].
  eapply run_later_inv with (P := not_rejected);
    [apply not_rejected_resolve | | exact Hlater].
  eapply cb_executor_inv with (P := not_rejected);
    [apply not_rejected_resolve | | exact Hex].
  exact I.
Qed.

(** The executor throws only what the normalization threw. *)
Lemma cb_executor_throws errorTransformer (fn : @script W) p s s' p' x :
  cb_executor fn errorTransformer p s = (s', p', Throw x) ->
  normalization_threw errorTransformer x.
Proof.
  unfold cb_executor.
  destruct (run_script (cb_callback errorTransformer) fn p s) as [[s1 p1] [[] | err]];
    [discriminate | ].
  rewrite failing_tuple_run.
  destruct (normalize errorTransformer err s1) as [s2 [e | y]] eqn:Hnorm;
    intros [= <- <- <-].
  exists err, s1, s2. exact Hnorm.
Qed.

(** A callback invoked later leaves uncaught only what the normalization
    threw. *)
Lemma run_later_uncaught errorTransformer calls :
  forall p uncaught s s' p' uncaught',
    run_later (cb_callback errorTransformer) calls p uncaught s = (s', p', uncaught') ->
    forall x, In x uncaught' ->
              In x uncaught \/ normalization_threw errorTransformer x.
Proof.
  induction calls as [ | [err result] rest IH]; intros p uncaught s s' p' uncaught' Hrun x Hx;
    cbn [run_later] in Hrun.
  - injection Hrun as <- <- <-. now left.
  - destruct (cb_callback_cases errorTransformer err result p s)
      as [(s1 & t & Hcb & _) | (s1 & y & Hcb & Hnorm)]; rewrite Hcb in Hrun.
    + eapply IH; eassumption.
    + destruct (IH _ _ _ _ _ _ Hrun x Hx) as [Hin | Hthrew]; [ | now right].
      apply in_app_or in Hin. destruct Hin as [Hin | [<- | []]]; [now left | right].
      exists err, s, s1. exact Hnorm.
Qed.

(** C4, as amended.  The wrappers absorb the failure of the wrapped
    operation itself; what can escape them is only an exception thrown
    while that failure is normalized (by the transformer, or by
    SafeError.from).  If [to] rejects with x, or [sync] throws x, then the
    wrapped operation failed with some r and the normalization of r threw
    x; if the promise of [cb] is rejected with x, or a callback leaves x
    uncaught, then x was thrown by the normalization.  And whenever the
    normalization of the raw failure r returns e, [to] fulfils with and
    [sync] returns [false, e, null], and so does the promise of [cb] when
    r is the first signal of [fn]: thrown before the callback is invoked,
    or passed as the truthy first argument of its first invocation. *)
Theorem wrappers_absorb_failures :
  forall errorTransformer,
    (forall awaited s s' x,
        to awaited errorTransformer s = (s', Rejected x) ->
        exists r, awaited = Rejected r
                  /\ normalize errorTransformer r s = (s', Throw x))
    /\ (forall (fn : M W value) s s' x,
           sync fn errorTransformer s = (s', Throw x) ->
           exists s1 r, fn s = (s1, Throw r)
                        /\ normalize errorTransformer r s1 = (s', Throw x))
    /\ (forall (fn : adapter) s s' p uncaught,
           cb fn errorTransformer s = (s', p, uncaught) ->
           (forall x, p = Some (Rejected x) -> normalization_threw errorTransformer x)
           /\ (forall x, In x uncaught -> normalization_threw errorTransformer x))
    /\ (forall r s s1 e,
           normalize errorTransformer r s = (s1, Normal e) ->
           to (Rejected r) errorTransformer s
           = (bump s1, Fulfilled (failing (next_id s1) e))
           /\ (forall (fn : M W value) s0,
                  fn s0 = (s, Throw r) ->
                  sync fn errorTransformer s0 = (bump s1, Normal (failing (next_id s1) e)))
           /\ (forall (fn : adapter) s0,
                  throws_first fn s0 = Some (s, r) ->
                  exists s' uncaught,
                    cb fn errorTransformer s0
                    = (s', Some (Fulfilled (failing (next_id s1) e)), uncaught))
           /\ (forall (fn : adapter) s0 result,
                  first_call fn s0 = Some (s, r, result) ->
                  truthy r = true ->
                  exists s' uncaught,
                    cb fn errorTransformer s0
                    = (s', Some (Fulfilled (failing (next_id s1) e)), uncaught))).
Proof.
  intros errorTransformer. split; [ | split; [ | split]].
  - intros [v | r] s s' x; unfold to, async, try_catch; cbn [await bind throw ret].
    + discriminate.
    + rewrite failing_tuple_run.
      destruct (normalize errorTransformer r s) as [s1 [e | y]] eqn:Hnorm;
        intros [= <- <-].
      exists r. split; [reflexivity | exact Hnorm].
  - intros fn s s' x. unfold sync, try_catch, bind at 1.
    destruct (fn s) as [s1 [v | r]]; [discriminate | ].
    rewrite failing_tuple_run.
    destruct (normalize errorTransformer r s1) as [s2 [e | y]] eqn:Hnorm;
      intros [= <- <-].
    exists s1, r. split; [reflexivity | exact Hnorm].
  - intros fn s s' p uncaught. unfold cb.
    destruct (cb_executor (body fn) errorTransformer None s) as [[s1 p1] [[] | x0]] eqn:Hex;
      intros Hlater; split.
    + eapply run_later_inv
        with (P := fun p => forall x, p = Some (Rejected x) ->
                                      normalization_threw errorTransformer x);
        [ | | exact Hlater].
      * intros [q | ] t _ Hp x; cbn; [apply Hp | discriminate].
      * eapply cb_executor_inv
          with (P := fun p => forall x, p = Some (Rejected x) ->
                                        normalization_threw errorTransformer x);
          [ | | exact Hex].
        -- intros [q | ] t _ Hp x; cbn; [apply Hp | discriminate].
        -- discriminate.
    + intros x Hx.
      destruct (run_later_uncaught _ _ _ _ _ Hlater x Hx) as [[] | H]; exact H.
    + eapply run_later_inv
        with (P := fun p => forall x, p = Some (Rejected x) ->
                                      normalization_threw errorTransformer x);
        [ | | exact Hlater].
      * intros [q | ] t _ Hp x; cbn; [apply Hp | discriminate].
      * assert (Hp1 : forall x, p1 = Some (Rejected x) ->
                                normalization_threw errorTransformer x).
        { eapply cb_executor_inv
            with (P := fun p => forall x, p = Some (Rejected x) ->
                                          normalization_threw errorTransformer x);
            [ | | exact Hex].
          - intros [q | ] t _ Hp x; cbn; [apply Hp | discriminate].
          - discriminate. }
        destruct p1 as [q | ]; cbn [reject]; [exact Hp1 | ].
        intros x [= <-]. eapply cb_executor_throws; exact Hex.
    + intros x Hx.
      destruct (run_later_uncaught _ _ _ _ _ Hlater x Hx) as [[] | H]; exact H.
  - intros r s s1 e Hnorm. repeat split.
    + unfold to, async, try_catch. cbn [await bind throw].
      rewrite failing_tuple_run. now rewrite Hnorm.
    + intros fn s0 Hfn. unfold sync, try_catch, bind at 1. rewrite Hfn.
      rewrite failing_tuple_run. now rewrite Hnorm.
    + intros fn s0 Hthrows.
      apply (proj2 (cb_truthiness_core fn errorTransformer s0 s) r s1 e Hthrows Hnorm).
    + intros fn s0 result Hfirst Htruthy.
      apply (proj2 (proj1 (cb_truthiness_core fn errorTransformer s0 s) r result Hfirst)
               Htruthy s1 e Hnorm).
Qed.

End Absorption.

Lemma wrappers_absorb_failures_witness :
  (exists r, Rejected (VStr "boom") = Rejected r
             /\ normalize (Some rethrow) r (mkState 0 tt) = (mkState 0 tt, Throw (VStr "boom")))
  /\ (exists s1 r, throw (A := value) (VStr "boom") (mkState 0 tt) = (s1, Throw r)
                   /\ normalize (Some rethrow) r s1 = (mkState 0 tt, Throw (VStr "boom")))
  /\ (forall x, Some (Rejected (VStr "boom")) = Some (Rejected x) ->
                normalization_threw (Some rethrow) x)
  /\ (forall x, In x [VStr "late"] -> normalization_threw (Some rethrow) x)
  /\ to (Rejected (VObj 0 (OError "Error" "boom"))) None (mkState 1 tt)
     = (mkState 3 tt,
        Fulfilled (failing 2 (VObj 1 (OSafeError "boom" (VObj 0 (OError "Error" "boom")) VUndef))))
  /\ sync throw_x_value None (mkState 0 tt)
     = (mkState 3 tt,
        Normal (failing 2 (VObj 1 (OSafeError "x" (VObj 0 (OError "Error" "x")) VUndef))))
  /\ (exists s' uncaught,
         cb (mkAdapter (Raise (VStr "oops")) [(VNull, VStr "late")]) None (mkState 0 tt)
         = (s', Some (Fulfilled (failing 1 (VObj 0 (OSafeError "oops" VUndef VUndef)))),
            uncaught))
  /\ (exists s' uncaught,
         cb (mkAdapter Return [(VStr "bad", VUndef)]) None (mkState 0 tt)
         = (s', Some (Fulfilled (failing 1 (VObj 0 (OSafeError "bad" VUndef VUndef)))),
            uncaught)).
Proof.
  destruct (@wrappers_absorb_failures unit (Some rethrow))
    as (Hto & Hsync & Hcb & _).
  destruct (@wrappers_absorb_failures unit None) as (_ & _ & _ & Hgood).
  split; [ | split; [ | split; [ | split; [ | split; [ | split; [ | split]]]]]].
  - apply (Hto (Rejected (VStr "boom")) (mkState 0 tt) (mkState 0 tt) (VStr "boom")).
    reflexivity.
  - apply (Hsync (throw (VStr "boom")) (mkState 0 tt) (mkState 0 tt) (VStr "boom")).
    reflexivity.
  - apply (proj1 (Hcb (mkAdapter (Raise (VStr "boom")) []) (mkState 0 tt) (mkState 0 tt)
                    (Some (Rejected (VStr "boom"))) [] eq_refl)).
  - apply (proj2 (Hcb (mkAdapter Return [(VStr "late", VUndef)]) (mkState 0 tt)
                    (mkState 0 tt) None [VStr "late"] eq_refl)).
  - apply (proj1 (Hgood (VObj 0 (OError "Error" "boom")) (mkState 1 tt) (mkState 2 tt)
                    (VObj 1 (OSafeError "boom" (VObj 0 (OError "Error" "boom")) VUndef))
                    eq_refl)).
  - apply (proj1 (proj2 (Hgood (VObj 0 (OError "Error" "x")) (mkState 1 tt) (mkState 2 tt)
                           (VObj 1 (OSafeError "x" (VObj 0 (OError "Error" "x")) VUndef))
                           eq_refl))
             throw_x_value (mkState 0 tt)).
    reflexivity.
  - apply (proj1 (proj2 (proj2 (Hgood (VStr "oops") (mkState 0 tt) (mkState 1 tt)
                                  (VObj 0 (OSafeError "oops" VUndef VUndef)) eq_refl)))
             (mkAdapter (Raise (VStr "oops")) [(VNull, VStr "late")]) (mkState 0 tt)).
    reflexivity.
  - apply (proj2 (proj2 (proj2 (Hgood (VStr "bad") (mkState 0 tt) (mkState 1 tt)
                                  (VObj 0 (OSafeError "bad" VUndef VUndef)) eq_refl)))
             (mkAdapter Return [(VStr "bad", VUndef)]) (mkState 0 tt) VUndef);
      reflexivity.
Defined.

(** C4, as stated, fails: a transformer that throws makes [to] reject and
    [sync] throw, makes the promise of [cb] reject when [fn] throws, and
    leaves an uncaught exception when the callback comes later. *)
Lemma throwing_transformer_escapes :
  let s : State unit := mkState 0 tt in
  to (Rejected (VStr "boom")) (Some rethrow) s = (s, Rejected (VStr "boom"))
  /\ sync (throw (VStr "boom")) (Some rethrow) s = (s, Throw (VStr "boom"))
  /\ cb (mkAdapter (Raise (VStr "boom")) []) (Some rethrow) s
     = (s, Some (Rejected (VStr "boom")), [])
  /\ cb (mkAdapter Return [(VStr "boom", VUndef)]) (Some rethrow) s
     = (s, None, [VStr "boom"]).
Proof. repeat split. Qed.

Section Invariant.

Context {W : Type}.

Implicit Types (s : State W) (errorTransformer : option (@ErrorTransformer W)).

Lemma success_one_empty id v : exactly_one_empty (success id v) \/ v = VNull.
Proof.
  destruct v; [left | now right | left ..]; cbn;
    (split; [reflexivity | split; split; (reflexivity || discriminate)]).
Qed.

Lemma failing_one_empty id e : exactly_one_empty (failing id e) \/ e = VNull.
Proof.
  destruct e; [left | now right | left ..]; cbn;
    (split; [reflexivity | split; split; (reflexivity || discriminate)]).
Qed.

Lemma SafeError_from_not_null r s s' e :
  SafeError_from r s = (s', Normal e) -> e <> VNull.
Proof.
  intros Hfrom ->.
  destruct (SafeError_from_returns r s) as (s1 & e & Hrun & Hinst & _).
  rewrite Hfrom in Hrun. injection Hrun as _ <-. discriminate Hinst.
Qed.

Lemma success_unless_null errorTransformer id v :
  one_empty_unless_null errorTransformer (success id v).
Proof.
  split; [apply SafeResult_success | ].
  destruct (success_one_empty id v) as [H | ->]; [now left | ].
  right. left. now exists id.
Qed.

Lemma failing_unless_null errorTransformer id err s s1 e :
  normalize errorTransformer err s = (s1, Normal e) ->
  one_empty_unless_null errorTransformer (failing id e).
Proof.
  intros Hnorm. split; [apply SafeResult_failing | ].
  destruct (failing_one_empty id e) as [H | ->]; [now left | ].
  right. right. split; [now exists id | ].
  destruct errorTransformer as [T | ]; cbn in Hnorm.
  - exists T, err, s, s1. auto.
  - now apply SafeError_from_not_null in Hnorm.
Qed.

(** What the callback of cb resolves with. *)
Lemma cb_callback_resolves errorTransformer err result p s :
  (exists s' t, cb_callback errorTransformer err result p s = (s', Normal (resolve p t))
                /\ one_empty_unless_null errorTransformer t)
  \/ (exists s' x, cb_callback errorTransformer err result p s = (s', Throw x)).
Proof.
  destruct (truthy err) eqn:Ht.
  - rewrite cb_callback_truthy by exact Ht.
    destruct (normalize errorTransformer err s) as [s1 [e | x]] eqn:Hnorm.
    + left. eexists _, _. split; [reflexivity | ].
      eapply failing_unless_null; exact Hnorm.
    + right. eauto.
  - rewrite cb_callback_falsy by exact Ht.
    left. eexists _, _. split; [reflexivity | apply success_unless_null].
Qed.

Lemma fulfilled_well_resolve errorTransformer p t :
  one_empty_unless_null errorTransformer t ->
  fulfilled_well errorTransformer p ->
  fulfilled_well errorTransformer (resolve p t).
Proof.
  intros Ht Hp. destruct p as [q | ]; cbn; [exact Hp | ].
  now intros t' [= <-].
Qed.

Lemma run_script_fulfilled_well errorTransformer (fn : @script W) :
  forall p s s' p' c,
    fulfilled_well errorTransformer p ->
    run_script (cb_callback errorTransformer) fn p s = (s', p', c) ->
    fulfilled_well errorTransformer p'.
Proof.
  induction fn as [ | r | act k IH | err result k IH]; intros p s s' p' c HP Hrun;
    cbn [run_script] in Hrun.
  - now injection Hrun as <- <- <-.
  - now injection Hrun as <- <- <-.
  - eapply IH; eassumption.
  - destruct (cb_callback_resolves errorTransformer err result p s)
      as [(s1 & t & Hcb & Ht) | (s1 & x & Hcb)]; rewrite Hcb in Hrun.
    + eapply IH; [ | eassumption]. now apply fulfilled_well_resolve.
    + eapply IH; eassumption.
Qed.

Lemma run_later_fulfilled_well errorTransformer calls :
  forall p uncaught s s' p' uncaught',
    fulfilled_well errorTransformer p ->
    run_later (cb_callback errorTransformer) calls p uncaught s = (s', p', uncaught') ->
    fulfilled_well errorTransformer p'.
Proof.
  induction calls as [ | [err result] rest IH]; intros p uncaught s s' p' uncaught' HP Hrun;
    cbn [run_later] in Hrun.
  - now injection Hrun as <- <- <-.
  - destruct (cb_callback_resolves errorTransformer err result p s)
      as [(s1 & t & Hcb & Ht) | (s1 & x & Hcb)]; rewrite Hcb in Hrun.
    + eapply IH; [ | eassumption]. now apply fulfilled_well_resolve.
    + eapply IH; eassumption.
Qed.

Lemma cb_fulfilled_well (fn : adapter) errorTransformer s s' p uncaught :
  cb fn errorTransformer s = (s', p, uncaught) ->
  fulfilled_well errorTransformer p.
Proof.
  unfold cb, cb_executor.
  destruct (run_script (cb_callback errorTransformer) (body fn) None s)
    as [[s1 p1] c] eqn:Hrun.
  assert (HP1 : fulfilled_well errorTransformer p1).
  { eapply run_script_fulfilled_well; [ | exact Hrun]. intros t [=]. }
  destruct c as [[] | err].
  - apply run_later_fulfilled_well. exact HP1.
  - rewrite failing_tuple_run.
    destruct (normalize errorTransformer err s1) as [s2 [e | x]] eqn:Hnorm;
      apply run_later_fulfilled_well.
    + apply fulfilled_well_resolve; [ | exact HP1].
      eapply failing_unless_null; exact Hnorm.
    + destruct p1 as [q | ]; cbn; [exact HP1 | intros t [=]].
Qed.

Lemma pipe_loop_one_empty (fns : list (@step W)) :
  forall current s s' t,
    pipe_loop current fns s = (s', Normal t) ->
    SafeResult t /\ (exactly_one_empty t \/ empty_payload t).
Proof.
  induction fns as [ | fn rest IH]; intros current s s' t; cbn [pipe_loop].
  - intros [= <- <-]. split; [apply SafeResult_success | ].
    destruct (success_one_empty (next_id s) current) as [H | ->]; [now left | right].
    now exists (next_id s).
  - destruct ((p <- fn current ;; await p) s) as [s1 [next | err]].
    + apply IH.
    + unfold bind.
      destruct (SafeError_from err s1) as [s2 [e | x]] eqn:Hfrom; intros [= <- <-].
      split; [apply SafeResult_failing | left].
      destruct (failing_one_empty (next_id s2) e) as [H | ->]; [exact H | ].
      now apply SafeError_from_not_null in Hfrom.
Qed.

(** C6, as amended.  Every tuple that [to], [sync], [cb], [map], [pipe] or
    [parse] produces is an array of three slots whose flag is a boolean; a
    true flag comes with a null error slot and a false flag with a null
    data slot.  Exactly one of the two slots is empty, the flag telling
    which, as the invariant is written, with two exceptions only: a
    success whose payload is itself null, and a failure whose error is
    itself null, which comes about only when a transformer returned null
    (in [map], only when the tuple passed in had a null error slot). *)
Theorem produced_tuples_keep_invariant :
  (forall awaited errorTransformer s s' t,
      to awaited errorTransformer s = (s', Fulfilled t) ->
      SafeResult t
      /\ (exactly_one_empty t
          \/ (empty_payload t /\ awaited = Fulfilled VNull)
          \/ (empty_error t
              /\ exists T r s1, errorTransformer = Some T /\ awaited = Rejected r
                                /\ T r s = (s1, Normal VNull))))
  /\ (forall (fn : M W value) errorTransformer s s' t,
         sync fn errorTransformer s = (s', Normal t) ->
         SafeResult t
         /\ (exactly_one_empty t
             \/ (empty_payload t /\ exists s1, fn s = (s1, Normal VNull))
             \/ (empty_error t
                 /\ exists T r s1 s2, errorTransformer = Some T /\ fn s = (s1, Throw r)
                                      /\ T r s1 = (s2, Normal VNull))))
  /\ (forall (fn : adapter) errorTransformer s s' t uncaught,
         cb fn errorTransformer s = (s', Some (Fulfilled t), uncaught) ->
         one_empty_unless_null errorTransformer t)
  /\ (forall result (fn : value -> M W value) s s' t,
         map result fn s = (s', Normal t) ->
         SafeResult t
         /\ (exactly_one_empty t
             \/ empty_payload t
             \/ (empty_error t
                 /\ exists s1 ok data,
                      destructure result s = (s1, Normal (ok, VNull, data)))))
  /\ (forall initial (fns : list step) s s' t,
         pipe initial fns s = (s', Fulfilled t) ->
         SafeResult t /\ (exactly_one_empty t \/ empty_payload t))
  /\ (forall (JSON_parse : string -> M W value) str s s' t,
         parse JSON_parse str s = (s', Normal t) ->
         SafeResult t /\ (exactly_one_empty t \/ empty_payload t)).
Proof.
  split; [ | split; [ | split; [ | split; [ | split]]]].
  - intros [v | r] errorTransformer s s' t; unfold to, async, try_catch;
      cbn [await bind throw ret].
    + intros [= <- <-]. split; [apply SafeResult_success | ].
      destruct (success_one_empty (next_id s) v) as [H | ->]; [now left | ].
      right. left. split; [now exists (next_id s) | reflexivity].
    + rewrite failing_tuple_run.
      destruct (normalize errorTransformer r s) as [s1 [e | x]] eqn:Hnorm;
        intros [= <- <-].
      split; [apply SafeResult_failing | ].
      destruct (failing_one_empty (next_id s1) e) as [H | ->]; [now left | ].
      right. right. split; [now exists (next_id s1) | ].
      destruct errorTransformer as [T | ]; cbn in Hnorm.
      * exists T, r, s1. auto.
      * now apply SafeError_from_not_null in Hnorm.
  - intros fn errorTransformer s s' t. unfold sync, try_catch, bind at 1.
    destruct (fn s) as [s1 [v | r]] eqn:Hfn.
    + intros [= <- <-]. split; [apply SafeResult_success | ].
      destruct (success_one_empty (next_id s1) v) as [H | ->]; [now left | ].
      right. left. split; [now exists (next_id s1) | now exists s1].
    + rewrite failing_tuple_run.
      destruct (normalize errorTransformer r s1) as [s2 [e | x]] eqn:Hnorm;
        intros [= <- <-].
      split; [apply SafeResult_failing | ].
      destruct (failing_one_empty (next_id s2) e) as [H | ->]; [now left | ].
      right. right. split; [now exists (next_id s2) | ].
      destruct errorTransformer as [T | ]; cbn in Hnorm.
      * exists T, r, s1, s2. auto.
      * now apply SafeError_from_not_null in Hnorm.
  - intros fn errorTransformer s s' t uncaught Hcb.
    exact (cb_fulfilled_well fn _ _ Hcb eq_refl).
  - intros result fn s s' t. unfold map, bind at 1.
    destruct (destructure result s) as [s1 [[[ok err] data] | x]] eqn:Hd; [ | discriminate].
    destruct (truthy ok).
    + unfold bind. destruct (fn data s1) as [s2 [u | x]]; intros [= <- <-].
      split; [apply SafeResult_success | ].
      destruct (success_one_empty (next_id s2) u) as [H | ->]; [now left | ].
      right. left. now exists (next_id s2).
    + intros [= <- <-]. split; [apply SafeResult_failing | ].
      destruct (failing_one_empty (next_id s1) err) as [H | ->]; [now left | ].
      right. right. split; [now exists (next_id s1) | eauto].
  - intros initial fns s s' t. unfold pipe, async.
    destruct (pipe_loop initial fns s) as [s1 [t1 | x]] eqn:Hloop; intros [= <- <-].
    eapply pipe_loop_one_empty; eassumption.
  - intros JSON_parse str s s' t. unfold parse.
    destruct (startsWith str "[OK] data: ").
    + unfold bind. destruct (JSON_parse _ s) as [s1 [data | x]]; intros [= <- <-].
      split; [apply SafeResult_success | ].
      destruct (success_one_empty (next_id s1) data) as [H | ->]; [now left | right].
      now exists (next_id s1).
    + destruct (startsWith str "[ERR] error: "); intros [= <- <-].
      split; [apply SafeResult_failing | left].
      cbn. split; [reflexivity | split; split; (reflexivity || discriminate)].
Qed.

End Invariant.

Lemma produced_tuples_keep_invariant_witness :
  (SafeResult (success 0 VNull)
   /\ (exactly_one_empty (success 0 VNull)
       \/ (empty_payload (success 0 VNull) /\ Fulfilled VNull = Fulfilled VNull)
       \/ (empty_error (success 0 VNull)
           /\ exists (T : @ErrorTransformer unit) r s1,
                None = Some T /\ Fulfilled VNull = Rejected r
                /\ T r (mkState 0 tt) = (s1, Normal VNull))))
  /\ (SafeResult (failing 1 (VObj 0 (OSafeError "gone" VUndef VUndef)))
      /\ (exactly_one_empty (failing 1 (VObj 0 (OSafeError "gone" VUndef VUndef)))
          \/ empty_payload (failing 1 (VObj 0 (OSafeError "gone" VUndef VUndef))))).
Proof.
  split.
  - apply (proj1 (@produced_tuples_keep_invariant unit)
             (Fulfilled VNull) None (mkState 0 tt) (mkState 1 tt)).
    reflexivity.
  - apply (proj2 (proj2 (proj2 (proj2 (proj2 (@produced_tuples_keep_invariant unit)))))
             ScalarJSON.parse "[ERR] error: gone" (mkState 0 tt) (mkState 2 tt)).
    reflexivity.
Defined.

(** C6, as stated, fails: a null payload gives [true, null, null], where
    both slots are empty, and a transformer returning null gives
    [false, null, null]. *)
Lemma null_payload_breaks_exactly_one_empty :
  let s : State unit := mkState 0 tt in
  (to (Fulfilled VNull) None s = (mkState 1 tt, Fulfilled (success 0 VNull))
   /\ ~ exactly_one_empty (success 0 VNull))
  /\ (sync (throw (VStr "x")) (Some (fun _ => ret VNull)) s
      = (mkState 1 tt, Normal (failing 0 VNull))
      /\ ~ exactly_one_empty (failing 0 VNull)).
Proof.
  cbn. repeat split; intros (H & _); discriminate H.
Qed.

Section RoundTrip.

Context {W : Type}.

Variable JSON_stringify : value -> M W value.
Variable JSON_parse : string -> M W value.

Implicit Types (s : State W) (data err : value).

Lemma startsWith_app (pre text : string) : startsWith (pre ++ text) pre = true.
Proof.
  unfold startsWith. induction pre as [ | c pre IH]; cbn.
  - now destruct text.
  - destruct (ascii_dec c c) as [_ | Hc]; [exact IH | now elim Hc].
Qed.

(** Every instance of Error carries a message. *)
Lemma Error_carries_message err :
  instanceof_Error err = true -> exists m, carries_message err = Some m.
Proof.
  destruct err as [ | | b | n | str | id [m c k | n m | elems | props r]];
    try discriminate; cbn; eauto.
Qed.

Lemma format_success id data s s1 text :
  JSON_stringify data s = (s1, Normal (VStr text)) ->
  format JSON_stringify (success id data) s = (s1, Normal ("[OK] data: " ++ text)).
Proof.
  intros Hjson. unfold format, success, bind, destructure, ret. cbn.
  now rewrite Hjson.
Qed.

Lemma format_failing id err m s :
  instanceof_Error err = true ->
  carries_message err = Some m ->
  format JSON_stringify (failing id err) s = (s, Normal ("[ERR] error: " ++ m)).
Proof.
  destruct err as [ | | b | n | str | i [m' c k | n m' | elems | props r]];
    try discriminate; intros _ [= ->]; reflexivity.
Qed.

Lemma parse_OK text s :
  parse JSON_parse ("[OK] data: " ++ text) s
  = (data <- JSON_parse text ;; tuple (VBool true) VNull data) s.
Proof. unfold parse. now rewrite startsWith_app. Qed.

Lemma parse_ERR m s :
  parse JSON_parse ("[ERR] error: " ++ m) s
  = (error <- new_SafeError m None ;; tuple (VBool false) error VNull) s.
Proof.
  unfold parse. rewrite startsWith_app.
  replace (startsWith ("[ERR] error: " ++ m) "[OK] data: ") with false by reflexivity.
  reflexivity.
Qed.

(** C5.  parse(format(t)) reproduces the flag of t.  For a true-flag tuple
    whose payload is losslessly encodable, it returns a true-flag tuple
    whose payload deep-equals the original one.  For a false-flag tuple
    carrying an Error with message m, it returns a false-flag tuple whose
    error is a new SafeError with message m, and without cause or code. *)
Theorem format_parse_round_trip :
  forall id s,
    (forall data,
        lossless JSON_stringify JSON_parse data s ->
        exists s' id' data',
          (text <- format JSON_stringify (success id data) ;; parse JSON_parse text) s
          = (s', Normal (success id' data'))
          /\ deep_equal data data' = true)
    /\ (forall err,
           instanceof_Error err = true ->
           exists m,
             carries_message err = Some m
             /\ (text <- format JSON_stringify (failing id err) ;; parse JSON_parse text) s
                = (bump (bump s),
                   Normal (failing (S (next_id s))
                             (VObj (next_id s) (OSafeError m VUndef VUndef))))).
Proof.
  intros id s. split.
  - intros data (text & s1 & s2 & data' & Hjson & Hparse & Heq).
    exists (bump s2), (next_id s2), data'. split; [ | exact Heq].
    unfold bind at 1. erewrite format_success by eassumption.
    rewrite parse_OK. unfold bind. now rewrite Hparse.
  - intros err Herr.
    destruct (Error_carries_message err Herr) as (m & Hm).
    exists m. split; [exact Hm | ].
    unfold bind at 1. erewrite format_failing by eassumption.
    now rewrite parse_ERR.
Qed.

End RoundTrip.

(** The scenario of section 8: format([true, null, 42]) is "[OK] data: 42"
    and parse gives [true, null, 42] back. *)
Example format_scenario :
  format (W := unit) ScalarJSON.stringify (success 0 (VNum (Int 42))) (mkState 1 tt)
  = (mkState 1 tt, Normal "[OK] data: 42")
  /\ parse (W := unit) ScalarJSON.parse "[OK] data: 42" (mkState 1 tt)
     = (mkState 2 tt, Normal (success 1 (VNum (Int 42)))).
Proof. split; reflexivity. Qed.

Lemma format_parse_round_trip_witness :
  (exists s' id' data',
      (text <- format ScalarJSON.stringify (success 0 (VNum (Int (-7)))) ;;
       parse ScalarJSON.parse text) (mkState 1 tt)
      = (s', Normal (success id' data'))
      /\ deep_equal (VNum (Int (-7))) data' = true)
  /\ (exists m,
         carries_message (VObj 0 (OSafeError "boom" (VStr "why") (VStr "E42"))) = Some m
         /\ (text <- format ScalarJSON.stringify
                       (failing 1 (VObj 0 (OSafeError "boom" (VStr "why") (VStr "E42")))) ;;
             parse ScalarJSON.parse text) (mkState 2 tt)
            = (bump (bump (mkState 2 tt)),
               Normal (failing 3 (VObj 2 (OSafeError m VUndef VUndef))))).
Proof.
  split.
  - apply (proj1 (format_parse_round_trip (W := unit)
                    ScalarJSON.stringify ScalarJSON.parse 0 (mkState 1 tt))).
    exists "-7", (mkState 1 tt), (mkState 1 tt), (VNum (Int (-7))).
    repeat split; reflexivity.
  - apply (proj2 (format_parse_round_trip (W := unit)
                    ScalarJSON.stringify ScalarJSON.parse 1 (mkState 2 tt))).
    reflexivity.
Defined.

(** The scalar codec is lossless on every scalar, so the round trip holds
    for every true-flag tuple with a scalar payload. *)
Section Scalars.

Context {W : Type}.

Lemma decimal_is_no_keyword d :
  let text := NilZero.string_of_int d in
  (text =? "null") = false /\ (text =? "true") = false /\ (text =? "false") = false.
Proof.
  destruct d as [d | d]; destruct d; repeat split; reflexivity.
Qed.

Lemma decimal_round_trip z :
  NilZero.int_of_string (NilZero.string_of_int (Z.to_int z)) = Some (Z.to_int z).
Proof.
  apply NilZero.isi; destruct z as [ | p | p]; cbn; try discriminate;
    intros [= H]; now apply (Unsigned.to_uint_nonnil p).
Qed.

Lemma ScalarJSON_parse_decimal z (s : State W) :
  ScalarJSON.parse (NilZero.string_of_int (Z.to_int z)) s = (s, Normal (VNum (Int z))).
Proof.
  unfold ScalarJSON.parse.
  destruct (decimal_is_no_keyword (Z.to_int z)) as (-> & -> & ->).
  now rewrite decimal_round_trip, DecimalZ.of_to.
Qed.

Lemma scalars_are_lossless data (s : State W) :
  ScalarJSON.scalar data = true ->
  lossless ScalarJSON.stringify ScalarJSON.parse data s.
Proof.
  destruct data as [ | | [ | ] | [z | ] | str | id o]; try discriminate; intros _.
  - exists "null", s, s, VNull. repeat split.
  - exists "true", s, s, (VBool true). repeat split.
  - exists "false", s, s, (VBool false). repeat split.
  - exists (NilZero.string_of_int (Z.to_int z)), s, s, (VNum (Int z)).
    repeat split; [apply ScalarJSON_parse_decimal | apply Z.eqb_refl].
Qed.

End Scalars.

(** * Further properties of the code *)

Section MoreNormalization.

Context {W : Type}.

Implicit Types (s : State W) (v : value).

(** X2.  For a value that is not an Error, SafeError.from keeps the value
    as the cause, except for a string, which becomes the message and
    leaves the cause undefined.  The message of any other value is its
    String rendering, or "Unknown error" when rendering throws. *)
Theorem from_non_Error :
  forall v s,
    instanceof_Error v = false ->
    SafeError_from v s
    = (bump s,
       Normal (VObj (next_id s)
                 (OSafeError
                    match v with
                    | VStr str => str
                    | _ => match String_ v with
                           | Normal text => text
                           | Throw _ => "Unknown error"
                           end
                    end
                    match v with
                    | VStr _ => VUndef
                    | _ => v
                    end
                    VUndef))).
Proof.
  intros v s Hv. unfold SafeError_from.
  destruct v as [ | | b | n | str | id [m c k | n m | elems | props r]];
    try discriminate Hv; try reflexivity;
    cbn [instanceof_SafeError]; unfold bind, try_catch, lift.
  - destruct b; reflexivity.
  - destruct n; reflexivity.
  - destruct (String_ (VObj id (OArray elems))); reflexivity.
  - destruct r; reflexivity.
Qed.

End MoreNormalization.

Lemma from_non_Error_witness :
  let hostile := VObj 0 (OObject [] (Raises (VStr "no toString"))) in
  SafeError_from hostile (mkState 1 tt)
  = (mkState 2 tt, Normal (VObj 1 (OSafeError "Unknown error" hostile VUndef))).
Proof.
  intro hostile.
  apply (@from_non_Error unit hostile (mkState 1 tt)).
  reflexivity.
Defined.

Section MoreWrappers.

Context {W : Type}.

Implicit Types (s : State W) (v : value).

(** X3.  Transformer override: when the wrapped operation fails with r and
    the transformer maps r to e, the error slot is e itself and no
    SafeError is built, in [to], in [sync], and in [cb] both when [fn]
    throws r before invoking the callback and when it first invokes the
    callback with a truthy r. *)
Theorem transformer_overrides :
  forall (T : @ErrorTransformer W) r s s1 e,
    T r s = (s1, Normal e) ->
    to (Rejected r) (Some T) s = (bump s1, Fulfilled (failing (next_id s1) e))
    /\ (forall (fn : M W value) s0,
           fn s0 = (s, Throw r) ->
           sync fn (Some T) s0 = (bump s1, Normal (failing (next_id s1) e)))
    /\ (forall (fn : adapter) s0,
           throws_first fn s0 = Some (s, r) ->
           exists s' uncaught,
             cb fn (Some T) s0 = (s', Some (Fulfilled (failing (next_id s1) e)), uncaught))
    /\ (forall (fn : adapter) s0 result,
           first_call fn s0 = Some (s, r, result) ->
           truthy r = true ->
           exists s' uncaught,
             cb fn (Some T) s0 = (s', Some (Fulfilled (failing (next_id s1) e)), uncaught)).
Proof.
  intros T r s s1 e HT. repeat split.
  - unfold to, async, try_catch. cbn [await bind throw].
    rewrite failing_tuple_run. cbn [normalize]. now rewrite HT.
  - intros fn s0 Hfn. unfold sync, try_catch, bind at 1. rewrite Hfn.
    rewrite failing_tuple_run. cbn [normalize]. now rewrite HT.
  - intros fn s0 Hthrows.
    apply (proj2 (cb_truthiness_core fn (Some T) s0 s) r s1 e Hthrows HT).
  - intros fn s0 result Hfirst Htruthy.
    apply (proj2 (proj1 (cb_truthiness_core fn (Some T) s0 s) r result Hfirst)
             Htruthy s1 e HT).
Qed.

(** X4.  What the transformer throws is what escapes: [to] rejects with
    it, [sync] throws it, and the promise of [cb] rejects with it when
    [fn] threw before invoking the callback. *)
Theorem transformer_exception_propagates :
  forall (T : @ErrorTransformer W) r s s1 x,
    T r s = (s1, Throw x) ->
    to (Rejected r) (Some T) s = (s1, Rejected x)
    /\ (forall (fn : M W value) s0,
           fn s0 = (s, Throw r) -> sync fn (Some T) s0 = (s1, Throw x))
    /\ (forall (fn : adapter) s0,
           throws_first fn s0 = Some (s, r) ->
           exists s' uncaught, cb fn (Some T) s0 = (s', Some (Rejected x), uncaught)).
Proof.
  intros T r s s1 x HT. repeat split.
  - unfold to, async, try_catch. cbn [await bind throw].
    rewrite failing_tuple_run. cbn [normalize]. now rewrite HT.
  - intros fn s0 Hfn. unfold sync, try_catch, bind at 1. rewrite Hfn.
    rewrite failing_tuple_run. cbn [normalize]. now rewrite HT.
  - intros fn s0 Hthrows. unfold throws_first in Hthrows.
    destruct (advance (body fn) s0) as [[ | r' | act k | err' result' k] s0'] eqn:Hadv;
      try discriminate.
    injection Hthrows as -> ->.
    unfold cb, cb_executor. rewrite run_script_advance, Hadv.
    cbn [fst snd run_script]. rewrite failing_tuple_run. cbn [normalize].
    rewrite HT. cbn [reject]. apply run_later_settled.
Qed.

(** X5.  A normalized error is not wrapped again: the error of the failing
    tuple that [sync] returns, thrown or rejected anew, comes back as the
    very same instance from [sync], from [to] and from [pipe], with only
    the tuple allocated. *)
Theorem normalized_error_passes_through :
  forall (fn : M W value) s s1 r,
    fn s = (s1, Throw r) ->
    exists s2 id e,
      sync fn None s = (s2, Normal (failing id e))
      /\ forall s3 initial,
           sync (throw e) None s3 = (bump s3, Normal (failing (next_id s3) e))
           /\ to (Rejected e) None s3 = (bump s3, Fulfilled (failing (next_id s3) e))
           /\ pipe initial [fun _ => throw e] s3
              = (bump s3, Fulfilled (failing (next_id s3) e)).
Proof.
  intros fn s s1 r Hfn.
  destruct (SafeError_from_returns r s1) as (s2 & e & Hfrom & Hinst & _).
  exists (bump s2), (next_id s2), e. split.
  - unfold sync, try_catch, bind at 1. rewrite Hfn.
    rewrite failing_tuple_run. cbn [normalize]. now rewrite Hfrom.
  - intros s3 initial.
    assert (Hsame : SafeError_from e s3 = (s3, Normal e)).
    { unfold SafeError_from. now rewrite Hinst. }
    repeat split.
    + unfold sync, try_catch, bind at 1. cbn [throw].
      rewrite failing_tuple_run. cbn [normalize]. now rewrite Hsame.
    + unfold to, async, try_catch. cbn [await bind throw].
      rewrite failing_tuple_run. cbn [normalize]. now rewrite Hsame.
    + unfold pipe, async. cbn [pipe_loop]. unfold bind at 1. cbn [throw].
      unfold bind. now rewrite Hsame.
Qed.

Lemma sync_returns_when errorTransformer (fn : M W value) s :
  (forall s1 r, fn s = (s1, Throw r) ->
                exists s2 e, normalize errorTransformer r s1 = (s2, Normal e)) ->
  exists s1 t, sync fn errorTransformer s = (s1, Normal t) /\ SafeResult t.
Proof.
  intros Hnorm. unfold sync, try_catch, bind at 1.
  destruct (fn s) as [s1 [v | r]].
  - eexists _, _. split; [reflexivity | apply SafeResult_success].
  - rewrite failing_tuple_run.
    destruct (Hnorm s1 r eq_refl) as (s2 & e & ->).
    eexists _, _. split; [reflexivity | apply SafeResult_failing].
Qed.

(** X6.  A wrapper around a wrapper: provided the normalization of what
    [fn] throws, if it throws, returns, sync(() => sync(fn, inner), outer)
    returns a success tuple whose payload is the tuple of the inner call,
    and the outer transformer is not used. *)
Theorem nested_sync_succeeds :
  forall inner outer (fn : M W value) s,
    (forall s1 r, fn s = (s1, Throw r) ->
                  exists s2 e, normalize inner r s1 = (s2, Normal e)) ->
    exists s1 t,
      sync fn inner s = (s1, Normal t)
      /\ SafeResult t
      /\ sync (sync fn inner) outer s = (bump s1, Normal (success (next_id s1) t)).
Proof.
  intros inner outer fn s Hnorm.
  destruct (sync_returns_when inner fn s Hnorm) as (s1 & t & Hsync & Ht).
  exists s1, t. repeat split; [exact Hsync | exact Ht | ].
  unfold sync at 1. unfold try_catch, bind at 1. now rewrite Hsync.
Qed.

(** X7.  On a well-formed tuple [or] never throws and changes nothing: it
    returns the data slot itself under a true flag and the default itself
    under a false flag. *)
Theorem or_payload_or_default :
  forall t d s,
    SafeResult t ->
    exists id flag err data,
      t = VObj id (OArray [VBool flag; err; data])
      /\ or t d s = (s, Normal (if flag then data else d)).
Proof.
  intros t d s Ht.
  destruct t as [ | | b | n | str | id [m c k | n m | elems | props r]];
    try contradiction.
  destruct elems as [ | [ | | flag | n | str | i o] [ | err [ | data [ | x rest]]]];
    try contradiction.
  exists id, flag, err, data. split; reflexivity.
Qed.

(** X8.  [or] after [sync]: provided the normalization of what [fn]
    throws, if it throws, returns, or(sync(fn), d) does not throw; it is
    what [fn] returned, or d when [fn] threw. *)
Theorem or_after_sync :
  forall errorTransformer d (fn : M W value) s,
    (forall s1 r, fn s = (s1, Throw r) ->
                  exists s2 e, normalize errorTransformer r s1 = (s2, Normal e)) ->
    exists s',
      (t <- sync fn errorTransformer ;; or t d) s
      = (s', Normal match fn s with
                    | (_, Normal v) => v
                    | (_, Throw _) => d
                    end).
Proof.
  intros errorTransformer d fn s Hnorm.
  unfold bind at 1, sync, try_catch, bind at 1.
  destruct (fn s) as [s1 [v | r]].
  - eexists. reflexivity.
  - rewrite failing_tuple_run.
    destruct (Hnorm s1 r eq_refl) as (s2 & e & ->).
    eexists. reflexivity.
Qed.

End MoreWrappers.

Section MoreCombinators.

Context {W : Type}.

Implicit Types (s : State W) (v : value) (fns gns : list (@step W)).

(** X10.  Steps appended to a pipe: when the first steps all succeed, the
    pipe goes on with the appended steps from the value and state they
    reached; when the pipe of the first steps ends with a failing tuple,
    the appended steps change nothing. *)
Theorem pipe_append :
  forall fns gns initial s,
    (forall s1 v1,
        run_steps initial fns s = Some (s1, v1) ->
        pipe initial (fns ++ gns) s = pipe v1 gns s1)
    /\ (forall s' id e,
           pipe initial fns s = (s', Fulfilled (failing id e)) ->
           pipe initial (fns ++ gns) s = (s', Fulfilled (failing id e))).
Proof.
  intros fns gns. unfold pipe, async.
  induction fns as [ | fn rest IH]; intros initial s; split.
  - intros s1 v1 [= <- <-]. reflexivity.
  - cbn. intros s' id e [=].
  - intros s1 v1 Hrun. cbn [run_steps] in Hrun.
    cbn [app pipe_loop]. unfold bind at 1.
    destruct (fn initial s) as [s0 [[next | r] | r]]; try discriminate.
    cbn [await ret]. now apply IH.
  - intros s' id e. cbn [app pipe_loop].
    destruct ((p <- fn initial ;; await p) s) as [s0 [next | err]].
    + apply IH.
    + trivial.
Qed.

(** X11.  A pipe of one step is [to], without a transformer, on what the
    step gives: on the promise it returns, or on a rejection with what it
    throws. *)
Theorem pipe_single_step :
  forall (fn : @step W) initial s s1,
    (forall p, fn initial s = (s1, Normal p) -> pipe initial [fn] s = to p None s1)
    /\ (forall r, fn initial s = (s1, Throw r) ->
                  pipe initial [fn] s = to (Rejected r) None s1).
Proof.
  intros fn initial s s1. split.
  - intros p Hfn. unfold pipe, to, async, try_catch. cbn [pipe_loop].
    unfold bind at 1. rewrite Hfn. destruct p as [v | r]; reflexivity.
  - intros r Hfn. unfold pipe, to, async, try_catch. cbn [pipe_loop].
    unfold bind at 1. rewrite Hfn. reflexivity.
Qed.

(** X12.  Two maps in a row.  On a failing tuple neither function is
    called and the error reference is carried through both; on a success
    tuple the payload goes through the first function and then the
    second. *)
Theorem map_twice :
  forall id (f g : value -> M W value),
    (forall e s,
        (t <- map (failing id e) f ;; map t g) s
        = (bump (bump s), Normal (failing (S (next_id s)) e)))
    /\ (forall v u w s s1 s2,
           f v s = (s1, Normal u) ->
           g u (bump s1) = (s2, Normal w) ->
           (t <- map (success id v) f ;; map t g) s
           = (bump s2, Normal (success (next_id s2) w))).
Proof.
  intros id f g. split.
  - reflexivity.
  - intros v u w s s1 s2 Hf Hg.
    unfold bind at 1. unfold map at 1. unfold bind, destructure, ret. cbn.
    rewrite Hf. unfold bump at 1. cbn.
    change (mkState (S (next_id s1)) (world s1)) with (bump s1).
    unfold bind. now rewrite Hg.
Qed.

(** X13.  [map] does not catch: when the function throws on the payload
    of a success tuple, [map] throws the same value and builds no tuple. *)
Theorem map_does_not_catch :
  forall id (fn : value -> M W value) v s s' x,
    fn v s = (s', Throw x) ->
    map (success id v) fn s = (s', Throw x).
Proof.
  intros id fn v s s' x Hfn.
  unfold map, success, bind, destructure, ret. cbn. now rewrite Hfn.
Qed.

End MoreCombinators.

Section MoreText.

Context {W : Type}.

Variable JSON_stringify : value -> M W value.
Variable JSON_parse : string -> M W value.

Implicit Types (s : State W) (data err : value).

(** X14.  The hard failures of [parse]: a text with neither prefix makes
    it throw a new Error whose message quotes the text, and an "[OK]" text
    whose remainder JSON.parse refuses makes it throw what JSON.parse
    threw; in neither case is a tuple built. *)
Theorem parse_hard_failures :
  forall s,
    (forall str,
        startsWith str "[OK] data: " = false ->
        startsWith str "[ERR] error: " = false ->
        parse JSON_parse str s
        = (bump s,
           Throw (VObj (next_id s) (OError "Error" ("Invalid SafeResult format: " ++ str)))))
    /\ (forall text s1 x,
           JSON_parse text s = (s1, Throw x) ->
           parse JSON_parse ("[OK] data: " ++ text) s = (s1, Throw x)).
Proof.
  intros s. split.
  - intros str Hok Herr. unfold parse. now rewrite Hok, Herr.
  - intros text s1 x Hjson. rewrite parse_OK. unfold bind. now rewrite Hjson.
Qed.

(** X15.  The round trip from the text side: format(parse(text)) gives an
    "[ERR]" text back unchanged, whatever the message is, and gives an
    "[OK]" text back with the remainder decoded and encoded again. *)
Theorem parse_format_round_trip :
  forall s,
    (forall m,
        (t <- parse JSON_parse ("[ERR] error: " ++ m) ;; format JSON_stringify t) s
        = (bump (bump s), Normal ("[ERR] error: " ++ m)))
    /\ (forall text data s1 s2 text',
           JSON_parse text s = (s1, Normal data) ->
           JSON_stringify data (bump s1) = (s2, Normal (VStr text')) ->
           (t <- parse JSON_parse ("[OK] data: " ++ text) ;; format JSON_stringify t) s
           = (s2, Normal ("[OK] data: " ++ text'))).
Proof.
  intros s. split.
  - intros m. unfold bind at 1. rewrite parse_ERR. reflexivity.
  - intros text data s1 s2 text' Hparse Hjson.
    unfold bind at 1. rewrite parse_OK. unfold bind at 1. rewrite Hparse.
    cbn [tuple alloc].
    change (VObj (next_id s1) (OArray [VBool true; VNull; data]))
      with (success (next_id s1) data).
    change (mkState (S (next_id s1)) (world s1)) with (bump s1).
    now apply format_success.
Qed.

(** X16.  What [format] returns always starts with one of the two
    prefixes, so [parse] never takes it for malformed text: it decodes the
    remainder of an "[OK]" text with JSON.parse, and turns an "[ERR]" text
    into a failing tuple whose error has the remainder as its message. *)
Theorem format_always_prefixed :
  forall result s s' text,
    format JSON_stringify result s = (s', Normal text) ->
    (exists rest, text = "[OK] data: " ++ rest
                  /\ forall s0,
                       parse JSON_parse text s0
                       = (data <- JSON_parse rest ;; tuple (VBool true) VNull data) s0)
    \/ (exists rest, text = "[ERR] error: " ++ rest
                     /\ forall s0, exists id,
                          parse JSON_parse text s0
                          = (bump (bump s0),
                             Normal (failing id (VObj (next_id s0) (OSafeError rest VUndef VUndef))))).
Proof.
  intros result s s' text. unfold format, bind at 1.
  destruct (destructure result s) as [s1 [[[ok err] data] | x]]; [ | discriminate].
  destruct (truthy ok).
  - unfold bind at 1. destruct (JSON_stringify data s1) as [s2 [j | x]]; [ | discriminate].
    unfold bind, lift, ret. destruct (String_ j) as [t | x]; cbv beta iota; intros [= <- <-].
    left. exists t. split; [reflexivity | ].
    intros s0. exact (parse_OK JSON_parse t s0).
  - unfold bind at 1. destruct (get_message err s1) as [s2 [m | x]]; [ | discriminate].
    unfold bind, lift, ret. destruct (String_ m) as [t | x]; cbv beta iota; intros [= <- <-].
    right. exists t. split; [reflexivity | ].
    intros s0. exists (S (next_id s0)). exact (parse_ERR JSON_parse t s0).
Qed.

(** X17.  Edge cases of [format].  A failing tuple whose error slot is
    null or undefined makes it throw a TypeError; an error without a
    message property is printed as "undefined"; a payload for which
    JSON.stringify gives undefined is printed as "undefined" too. *)
Theorem format_edge_cases :
  forall id s,
    (forall err,
        err = VNull \/ err = VUndef ->
        exists msg,
          format JSON_stringify (failing id err) s
          = (bump s, Throw (VObj (next_id s) (OError "TypeError" msg))))
    /\ (forall i props toStr,
           lookup "message" props = VUndef ->
           format JSON_stringify (failing id (VObj i (OObject props toStr))) s
           = (s, Normal "[ERR] error: undefined"))
    /\ (forall data s1,
           JSON_stringify data s = (s1, Normal VUndef) ->
           format JSON_stringify (success id data) s
           = (s1, Normal "[OK] data: undefined")).
Proof.
  intros id s. repeat split.
  - intros err [-> | ->]; eexists; reflexivity.
  - intros i props toStr Hmsg.
    unfold format, failing, bind, destructure, ret, get_message, lift. cbn.
    now rewrite Hmsg.
  - intros data s1 Hjson.
    unfold format, success, bind, destructure, ret, lift. cbn.
    now rewrite Hjson.
Qed.

End MoreText.

Section MoreCallback.

Context {W : Type}.

Implicit Types (s : State W) (fn : @adapter W)
  (errorTransformer : option (@ErrorTransformer W)).

Lemma advance_stops (body : @script W) :
  forall s act k s0, advance body s <> (Perform act k, s0).
Proof.
  induction body as [ | r | act' k' IH | err result k' IH]; intros s act k s0;
    cbn [advance]; try discriminate.
  apply IH.
Qed.

(** X18.  When [cb] leaves its promise pending.  With a transformer that
    returns on every input, the promise stays pending exactly when [fn]
    returns without throwing and the callback is never invoked, neither in
    its own turn nor later; in every other case it is fulfilled, and no
    exception is left uncaught. *)
Theorem cb_pending_iff_silent :
  forall T : @ErrorTransformer W,
    (forall err s, exists s' e, T err s = (s', Normal e)) ->
    forall fn s, exists s' p,
      cb fn (Some T) s = (s', p, [])
      /\ (p = None <-> first_call fn s = None /\ throws_first fn s = None)
      /\ (p <> None -> exists t, p = Some (Fulfilled t)).
Proof.
  intros T HT fn s.
  assert (Hret : returns (Some T)) by (intros f [= <-]; exact HT).
  remember (Some T) as errorTransformer eqn:HeqT. clear HeqT.
  destruct (cb_clean fn s Hret) as (s' & p & Hcb & Hnr).
  exists s', p. split; [exact Hcb | ]. split.
  - unfold first_call, throws_first.
    destruct (advance (body fn) s) as [[ | r | act k | err result k] s0] eqn:Hadv.
    + destruct (later fn) as [ | [err result] rest] eqn:Hlater.
      * unfold cb, cb_executor in Hcb.
        rewrite run_script_advance, Hadv, Hlater in Hcb. cbn in Hcb.
        injection Hcb as _ <-. tauto.
      * destruct (cb_callback_returns Hret err result None s0) as (s1 & t & Hcall & _).
        destruct (@cb_invoked_later W fn errorTransformer s s0 err result rest s1
                    (Fulfilled t) Hadv Hlater Hcall) as (s2 & u & Hcb').
        rewrite Hcb in Hcb'. injection Hcb' as _ -> _.
        split; [discriminate | intros [[=] _]].
    + destruct (normalize_returns Hret r s0) as (s1 & e & Hnorm).
      destruct (@cb_thrown_in_turn W fn errorTransformer s s0 r s1 e Hadv Hnorm)
        as (s2 & u & Hcb').
      rewrite Hcb in Hcb'. injection Hcb' as _ -> _.
      split; [discriminate | intros [_ [=]]].
    + now apply advance_stops in Hadv.
    + destruct (cb_callback_returns Hret err result None s0) as (s1 & t & Hcall & _).
      destruct (@cb_invoked_in_turn W fn errorTransformer s s0 err result k s1
                  (Fulfilled t) Hadv Hcall) as (s2 & u & Hcb').
      rewrite Hcb in Hcb'. injection Hcb' as _ -> _.
      split; [discriminate | intros [[=] _]].
  - intros Hp. destruct p as [[t | r] | ]; [eauto | contradiction | contradiction].
Qed.

End MoreCallback.

Section MoreCompositions.

Context {W : Type}.

Variable JSON_stringify : value -> M W value.

Implicit Types (s : State W).

(** The SafeError that default normalization gives, and its message for
    an Error and for a string. *)
Lemma SafeError_from_message v s :
  exists s' id m c k,
    SafeError_from v s = (s', Normal (VObj id (OSafeError m c k)))
    /\ (forall i name msg, v = VObj i (OError name msg) -> m = msg)
    /\ (forall str, v = VStr str -> m = str).
Proof.
  destruct v as [ | | b | n | str | i [m c k | n m | elems | props r]];
    unfold SafeError_from; cbn [instanceof_SafeError];
    try (unfold bind, try_catch, lift;
         match goal with
         | |- context [String_ ?x] => destruct (String_ x)
         | _ => idtac
         end);
    cbn; eexists _, _, _, _, _;
    (split; [reflexivity | split; [intros ? ? ? [=] | intros ? [=]]]); subst; reflexivity.
Qed.

(** X19.  A transformer that throws inside the callback, in [fn]'s own
    turn.  When [fn] lets that exception x escape, the catch clause of cb
    hands x, not the original error, to the transformer again: the promise
    fulfils with [false, T(x), null] when this second call returns, and
    rejects with what it throws otherwise. *)
Theorem cb_transformer_throws_in_turn :
  forall (T : @ErrorTransformer W) err result later x s s1,
    truthy err = true ->
    T err s = (s1, Throw x) ->
    let fn :=
      mkAdapter
        (Invoke err result
           (fun c => match c with Normal _ => Return | Throw y => Raise y end))
        later in
    (forall s2 e,
        T x s1 = (s2, Normal e) ->
        exists s' uncaught,
          cb fn (Some T) s = (s', Some (Fulfilled (failing (next_id s2) e)), uncaught))
    /\ (forall s2 y,
           T x s1 = (s2, Throw y) ->
           exists s' uncaught, cb fn (Some T) s = (s', Some (Rejected y), uncaught)).
Proof.
  intros T err result later x s s1 Htruthy HT fn. split.
  - intros s2 e HT2. unfold cb, cb_executor, fn. cbn [body run_script].
    rewrite cb_callback_truthy by exact Htruthy. cbn [normalize].
    rewrite HT. unfold bind. rewrite HT2. cbn [tuple alloc resolve].
    apply run_later_settled.
  - intros s2 y HT2. unfold cb, cb_executor, fn. cbn [body run_script].
    rewrite cb_callback_truthy by exact Htruthy. cbn [normalize].
    rewrite HT. unfold bind. rewrite HT2. cbn [reject].
    apply run_later_settled.
Qed.

(** X20.  [format] after [sync]: when [fn] throws something other than a
    SafeError and its default normalization returns, format(sync(fn))
    returns "[ERR] error: " followed by the message of the normalized
    error, which is the message of a thrown Error and the text of a thrown
    string. *)
Theorem format_after_failed_sync :
  forall (fn : M W value) s s1 r s2 e,
    fn s = (s1, Throw r) ->
    instanceof_SafeError r = false ->
    SafeError_from r s1 = (s2, Normal e) ->
    exists m,
      carries_message e = Some m
      /\ (t <- sync fn None ;; format JSON_stringify t) s
         = (bump s2, Normal ("[ERR] error: " ++ m))
      /\ (forall id name msg, r = VObj id (OError name msg) -> m = msg)
      /\ (forall str, r = VStr str -> m = str).
Proof.
  intros fn s s1 r s2 e Hfn _ Hfrom.
  destruct (SafeError_from_message r s1) as (s2' & id & m & c & k & Hfrom' & HError & Hstr).
  rewrite Hfrom in Hfrom'. injection Hfrom' as <- ->.
  exists m. split; [reflexivity | split; [ | split; assumption]].
  unfold bind at 1, sync, try_catch, bind at 1. rewrite Hfn.
  rewrite failing_tuple_run. cbn [normalize]. rewrite Hfrom.
  now apply format_failing.
Qed.

End MoreCompositions.

(** ** The further properties at concrete inputs *)

Lemma transformer_overrides_witness :
  let r := VStr "boom" in
  let e := VObj 0 (OObject [("type", VStr "custom"); ("original", r)]
                     (Renders "[object Object]")) in
  to (Rejected r) (Some custom) (mkState 0 tt)
  = (mkState 2 tt, Fulfilled (failing 1 e))
  /\ sync (throw r) (Some custom) (mkState 0 tt)
     = (mkState 2 tt, Normal (failing 1 e)).
Proof.
  intros r e.
  destruct (@transformer_overrides unit custom r (mkState 0 tt) (mkState 1 tt) e eq_refl)
    as (Hto & Hsync & _).
  split; [exact Hto | ].
  apply (Hsync (throw r) (mkState 0 tt)). reflexivity.
Defined.

Lemma transformer_exception_propagates_witness :
  to (Rejected (VStr "boom")) (Some rethrow) (mkState 0 tt)
  = (mkState 0 tt, Rejected (VStr "boom"))
  /\ exists s' uncaught,
       cb (mkAdapter (Raise (VStr "boom")) [(VNull, VStr "late")]) (Some rethrow)
         (mkState 0 tt)
       = (s', Some (Rejected (VStr "boom")), uncaught).
Proof.
  destruct (@transformer_exception_propagates unit rethrow (VStr "boom")
              (mkState 0 tt) (mkState 0 tt) (VStr "boom") eq_refl)
    as (Hto & _ & Hcb).
  split; [exact Hto | ].
  apply (Hcb (mkAdapter (Raise (VStr "boom")) [(VNull, VStr "late")]) (mkState 0 tt)).
  reflexivity.
Defined.

Lemma normalized_error_passes_through_witness :
  exists s2 id e,
    sync (throw (VStr "boom")) None (mkState 0 tt) = (s2, Normal (failing id e))
    /\ forall (s3 : State unit) initial,
         sync (throw e) None s3 = (bump s3, Normal (failing (next_id s3) e))
         /\ to (Rejected e) None s3 = (bump s3, Fulfilled (failing (next_id s3) e))
         /\ pipe initial [fun _ => throw e] s3
            = (bump s3, Fulfilled (failing (next_id s3) e)).
Proof.
  apply (@normalized_error_passes_through unit (throw (VStr "boom"))
           (mkState 0 tt) (mkState 0 tt) (VStr "boom")).
  reflexivity.
Defined.

Lemma nested_sync_succeeds_witness :
  exists s1 t,
    sync (throw (VStr "boom")) (Some custom) (mkState 0 tt) = (s1, Normal t)
    /\ SafeResult t
    /\ sync (sync (throw (VStr "boom")) (Some custom)) (Some rethrow) (mkState 0 tt)
       = (bump s1, Normal (success (next_id s1) t)).
Proof.
  apply (@nested_sync_succeeds unit (Some custom) (Some rethrow)).
  intros s1 r [= <- <-]. eexists _, _. reflexivity.
Defined.

Lemma or_payload_or_default_witness :
  exists id flag err data,
    failing 3 (VStr "e") = VObj id (OArray [VBool flag; err; data])
    /\ or (failing 3 (VStr "e")) (VStr "anonymous") (mkState 4 tt)
       = (mkState 4 tt, Normal (if flag then data else VStr "anonymous")).
Proof.
  apply (@or_payload_or_default unit (failing 3 (VStr "e")) (VStr "anonymous") (mkState 4 tt)).
  split; [discriminate | reflexivity].
Defined.

Lemma or_after_sync_witness :
  exists s',
    (t <- sync throw_x_value None ;; or t (VNum (Int 0))) (mkState 0 tt)
    = (s', Normal (VNum (Int 0))).
Proof.
  apply (@or_after_sync unit None (VNum (Int 0)) throw_x_value (mkState 0 tt)).
  intros s1 r [= <- <-]. eexists _, _. reflexivity.
Defined.

Lemma pipe_append_witness :
  pipe (VNum (Int 0)) ([increment; increment] ++ [throw_x]) (mkState 0 tt)
  = pipe (VNum (Int 2)) [throw_x] (mkState 0 tt)
  /\ pipe (VNum (Int 0)) ([reject_no] ++ [increment]) (mkState 0 tt)
     = (mkState 2 tt, Fulfilled (failing 1 (VObj 0 (OSafeError "no" VUndef VUndef)))).
Proof.
  split.
  - apply (proj1 (@pipe_append unit [increment; increment] [throw_x]
                    (VNum (Int 0)) (mkState 0 tt))).
    reflexivity.
  - apply (proj2 (@pipe_append unit [reject_no] [increment]
                    (VNum (Int 0)) (mkState 0 tt))).
    reflexivity.
Defined.

Lemma pipe_single_step_witness :
  pipe (VNum (Int 0)) [reject_no] (mkState 0 tt)
  = to (Rejected (VStr "no")) None (mkState 0 tt)
  /\ pipe (VNum (Int 0)) [throw_x] (mkState 0 tt)
     = to (Rejected (VObj 0 (OError "Error" "x"))) None (mkState 1 tt).
Proof.
  split.
  - apply (proj1 (@pipe_single_step unit reject_no (VNum (Int 0))
                    (mkState 0 tt) (mkState 0 tt))).
    reflexivity.
  - apply (proj2 (@pipe_single_step unit throw_x (VNum (Int 0))
                    (mkState 0 tt) (mkState 1 tt))).
    reflexivity.
Defined.

Lemma map_twice_witness :
  (t <- map (success 0 (VNum (Int 10))) twice ;; map t twice) (mkState 1 tt)
  = (mkState 3 tt, Normal (success 2 (VNum (Int 40)))).
Proof.
  apply (proj2 (@map_twice unit 0 twice twice)
           (VNum (Int 10)) (VNum (Int 20)) (VNum (Int 40))
           (mkState 1 tt) (mkState 1 tt) (mkState 2 tt));
    reflexivity.
Defined.

Lemma map_does_not_catch_witness :
  map (success 0 (VStr "payload")) refuse (mkState 1 tt)
  = (mkState 1 tt, Throw (VStr "payload")).
Proof.
  apply (@map_does_not_catch unit 0 refuse). reflexivity.
Defined.

Lemma parse_hard_failures_witness :
  parse (W := unit) ScalarJSON.parse "[ok] data: 1" (mkState 0 tt)
  = (mkState 1 tt,
     Throw (VObj 0 (OError "Error" "Invalid SafeResult format: [ok] data: 1")))
  /\ parse (W := unit) ScalarJSON.parse ("[OK] data: " ++ "{oops") (mkState 0 tt)
     = (mkState 1 tt, Throw (VObj 0 (OError "SyntaxError" "Unexpected token"))).
Proof.
  split.
  - apply (proj1 (@parse_hard_failures unit ScalarJSON.parse (mkState 0 tt)));
      reflexivity.
  - apply (proj2 (@parse_hard_failures unit ScalarJSON.parse (mkState 0 tt))).
    reflexivity.
Defined.

Lemma parse_format_round_trip_witness :
  (t <- parse (W := unit) ScalarJSON.parse ("[OK] data: " ++ "-7") ;;
   format ScalarJSON.stringify t) (mkState 0 tt)
  = (mkState 1 tt, Normal ("[OK] data: " ++ "-7")).
Proof.
  apply (proj2 (@parse_format_round_trip unit ScalarJSON.stringify ScalarJSON.parse
                  (mkState 0 tt))
           "-7" (VNum (Int (-7))) (mkState 0 tt) (mkState 1 tt) "-7");
    reflexivity.
Defined.

Lemma format_always_prefixed_witness :
  (exists rest, "[ERR] error: boom" = "[OK] data: " ++ rest
                /\ forall s0 : State unit,
                     parse ScalarJSON.parse "[ERR] error: boom" s0
                     = (data <- ScalarJSON.parse rest ;; tuple (VBool true) VNull data) s0)
  \/ (exists rest, "[ERR] error: boom" = "[ERR] error: " ++ rest
                   /\ forall s0 : State unit, exists id,
                        parse ScalarJSON.parse "[ERR] error: boom" s0
                        = (bump (bump s0),
                           Normal (failing id (VObj (next_id s0) (OSafeError rest VUndef VUndef))))).
Proof.
  apply (@format_always_prefixed unit ScalarJSON.stringify ScalarJSON.parse
           (failing 1 (VObj 0 (OError "Error" "boom"))) (mkState 2 tt) (mkState 2 tt)).
  reflexivity.
Defined.

Lemma format_edge_cases_witness :
  (exists msg,
      format (W := unit) ScalarJSON.stringify (failing 0 VNull) (mkState 1 tt)
      = (bump (mkState 1 tt), Throw (VObj 1 (OError "TypeError" msg))))
  /\ format (W := unit) ScalarJSON.stringify
       (failing 1 (VObj 0 (OObject [("type", VStr "custom")] (Renders "[object Object]"))))
       (mkState 2 tt)
     = (mkState 2 tt, Normal "[ERR] error: undefined")
  /\ format (W := unit) ScalarJSON.stringify (success 0 VUndef) (mkState 1 tt)
     = (mkState 1 tt, Normal "[OK] data: undefined").
Proof.
  destruct (@format_edge_cases unit ScalarJSON.stringify 0 (mkState 1 tt))
    as (Hnull & _ & Hundef).
  destruct (@format_edge_cases unit ScalarJSON.stringify 1 (mkState 2 tt))
    as (_ & Hmsg & _).
  split; [ | split].
  - apply (Hnull VNull). now left.
  - apply Hmsg. reflexivity.
  - apply Hundef. reflexivity.
Defined.

Lemma cb_pending_iff_silent_witness :
  exists s' p,
    cb (mkAdapter (Perform (fun s => s) (fun _ => Return)) []) (Some custom) (mkState 0 tt)
    = (s', p, [])
    /\ (p = None <->
        first_call (mkAdapter (Perform (fun s => s) (fun _ => Return)) []) (mkState 0 tt) = None
        /\ throws_first (mkAdapter (Perform (fun s => s) (fun _ => Return)) []) (mkState 0 tt)
           = None)
    /\ (p <> None -> exists t, p = Some (Fulfilled t)).
Proof.
  apply (@cb_pending_iff_silent unit custom).
  intros err s. eexists _, _. reflexivity.
Defined.

Lemma cb_transformer_throws_in_turn_witness :
  let propagate := fun c : completion unit =>
    match c with Normal _ => Return | Throw y => Raise y end in
  (exists s' uncaught,
      cb (mkAdapter (Invoke (VNum (Int 1)) VUndef propagate) []) (Some fussy) (mkState 0 tt)
      = (s', Some (Fulfilled (failing 0 (VStr "not a number, please"))), uncaught))
  /\ (exists s' uncaught,
         cb (mkAdapter (Invoke (VStr "bad") VUndef propagate) []) (Some rethrow) (mkState 0 tt)
         = (s', Some (Rejected (VStr "bad")), uncaught)).
Proof.
  intro propagate. split.
  - apply (proj1 (@cb_transformer_throws_in_turn unit fussy (VNum (Int 1)) VUndef []
                    (VStr "not a number, please") (mkState 0 tt) (mkState 0 tt)
                    eq_refl eq_refl)
             (mkState 0 tt) (VStr "not a number, please")).
    reflexivity.
  - apply (proj2 (@cb_transformer_throws_in_turn unit rethrow (VStr "bad") VUndef []
                    (VStr "bad") (mkState 0 tt) (mkState 0 tt) eq_refl eq_refl)
             (mkState 0 tt) (VStr "bad")).
    reflexivity.
Defined.

Lemma format_after_failed_sync_witness :
  exists m,
    carries_message (VObj 1 (OSafeError "x" (VObj 0 (OError "Error" "x")) VUndef)) = Some m
    /\ (t <- sync throw_x_value None ;; format ScalarJSON.stringify t) (mkState 0 tt)
       = (bump (mkState 2 tt), Normal ("[ERR] error: " ++ m))
    /\ (forall id name msg, VObj 0 (OError "Error" "x") = VObj id (OError name msg) -> m = msg)
    /\ (forall str, VObj 0 (OError "Error" "x") = VStr str -> m = str).
Proof.
  apply (@format_after_failed_sync unit ScalarJSON.stringify throw_x_value
           (mkState 0 tt) (mkState 1 tt) (VObj 0 (OError "Error" "x")) (mkState 2 tt));
    reflexivity.
Defined.
